(** * efrotools.util: a shallow embedding of [tools/efrotools/util.py]

    The module is a flat set of helpers used by build scripts: flag and
    argument extraction from an argument list, marker-delimited section
    replacement, exact-count substitution and content hashing.

    Conventions of the embedding:
    - a Python [str] is a list of Unicode code points ([N]);
    - a Python [bytes] is a list of [Byte.byte];
    - a call that may raise returns a [result]; the exception carries its
      class and the pieces of its f-string message;
    - a function that mutates its [args] list returns the list as it is
      after the call, next to its result (also when it raises). *)

From Stdlib Require Import ZArith NArith Lia Strings.Byte Ascii.
From stdpp Require Import base list strings gmap.

Local Open Scope nat_scope.

(** ** Python values *)

Abbreviation char := N (only parsing).
Abbreviation str := (list N) (only parsing).
Abbreviation bytes := (list byte) (only parsing).

(** A literal of the source, as a [str]. *)
Definition py (s : string) : str :=
  map N_of_ascii (String.list_ascii_of_string s).

(** The classes of the objects that reach [get_files_hash] as [filenames]. *)
Inductive py_type := TList | TTuple | TStr | TSet | TNoneType.

(** The pieces of an f-string: literal text and the formatted fields
    ([{x}] of a str, [{n}] of an int, [{repr(x)}], [{type(x)}]). *)
Inductive frag :=
| Lit (s : string)
| Fmt (s : str)
| FmtInt (n : Z)
| FmtRepr (s : str)
| FmtType (t : py_type).

Inductive exn :=
| CleanError (msg : list frag)
| RuntimeError (msg : list frag)
| TypeError (msg : list frag)
| ValueError (msg : list frag)
| IndexError (msg : list frag)
| FileNotFoundError (path : str)
| UnicodeEncodeError (codepoint : N).

Inductive result (A : Type) :=
| Ok (a : A)
| Raise (e : exn).
Arguments Ok {A} a.
Arguments Raise {A} e.

Definition raises {A} (r : result A) : bool :=
  match r with Ok _ => false | Raise _ => true end.

(** ** Python list operations used on [args] *)

(** [list.count(x)] *)
Fixpoint list_count (l : list str) (x : str) : nat :=
  match l with
  | [] => 0
  | y :: l' => (if decide (y = x) then 1 else 0) + list_count l' x
  end.

(** [list.index(x)]: the first index, [ValueError] when there is none. *)
Fixpoint list_index (l : list str) (x : str) : result nat :=
  match l with
  | [] => Raise (ValueError [FmtRepr x; Lit " is not in list"])
  | y :: l' =>
      if decide (y = x) then Ok 0
      else match list_index l' x with
           | Ok i => Ok (S i)
           | Raise e => Raise e
           end
  end.

(** [list.remove(x)]: drops the first occurrence, [ValueError] when there
    is none. *)
Fixpoint list_remove (l : list str) (x : str) : result (list str) :=
  match l with
  | [] => Raise (ValueError [Lit "list.remove(x): x not in list"])
  | y :: l' =>
      if decide (y = x) then Ok l'
      else match list_remove l' x with
           | Ok r => Ok (y :: r)
           | Raise e => Raise e
           end
  end.

(** [l[i]] for a non-negative index. *)
Definition list_getitem (l : list str) (i : nat) : result str :=
  match l !! i with
  | Some v => Ok v
  | None => Raise (IndexError [Lit "list index out of range"])
  end.

(** [del l[i:j]] for [0 <= i <= j]; a [j] past the end is clamped. *)
Definition del_slice (l : list str) (i j : nat) : list str :=
  take i l ++ drop j l.

(** ** extract_flag, extract_arg *)

Definition extract_flag (args : list str) (name : str)
  : result bool * list str :=
  let count := list_count args name in
  if 1 <? count then
    (Raise (CleanError [Lit "Flag "; Fmt name; Lit " passed multiple times."]),
     args)
  else if count =? 0 then (Ok false, args)
  else match list_remove args name with
       | Raise e => (Raise e, args)
       | Ok args' => (Ok true, args')
       end.

Definition extract_arg (args : list str) (name : str) (required : bool)
  : result (option str) * list str :=
  let count := list_count args name in
  if count =? 0 then
    if required then
      (Raise (CleanError
                [Lit "Required argument "; Fmt name; Lit " not passed."]),
       args)
    else (Ok None, args)
  else if 1 <? count then
    (Raise (CleanError [Lit "Arg "; Fmt name; Lit " passed multiple times."]),
     args)
  else
    match list_index args name with
    | Raise e => (Raise e, args)
    | Ok argindex =>
        if length args <=? argindex + 1 then
          (Raise (CleanError
                    [Lit "No value passed after "; Fmt name; Lit " arg."]),
           args)
        else
          match list_getitem args (argindex + 1) with
          | Raise e => (Raise e, args)
          | Ok val => (Ok (Some val), del_slice args argindex (argindex + 2))
          end
    end.

(** ** Python str operations *)

(** [s.startswith(p)] *)
Fixpoint startswith (s p : str) {struct p} : bool :=
  match p, s with
  | [], _ => true
  | _ :: _, [] => false
  | a :: p', b :: s' => if decide (a = b) then startswith s' p' else false
  end.

(** [s.find(sub)]: the lowest index at which [sub] occurs; [None] stands
    for Python's -1. *)
Fixpoint str_find (s sub : str) {struct s} : option nat :=
  if startswith s sub then Some 0
  else match s with
       | [] => None
       | _ :: s' => S <$> str_find s' sub
       end.

(** [sub in s] *)
Definition str_in (sub s : str) : bool :=
  match str_find s sub with Some _ => true | None => false end.

(** The scans below look for the leftmost occurrence, handle it and go on
    after it, as CPython does for a non-empty pattern. Every round consumes
    at least one code point, so [length s] rounds are enough. *)
Fixpoint count_from (fuel : nat) (s sub : str) : nat :=
  match fuel with
  | 0 => 0
  | S fuel' =>
      match str_find s sub with
      | None => 0
      | Some i => S (count_from fuel' (drop (i + length sub) s) sub)
      end
  end.

(** [s.count(sub)]: the number of non-overlapping occurrences; the empty
    pattern occurs between all code points and at both ends. *)
Definition str_count (s sub : str) : nat :=
  match sub with
  | [] => S (length s)
  | _ :: _ => count_from (length s) s sub
  end.

Fixpoint split_from (fuel : nat) (s sep : str) : list str :=
  match fuel with
  | 0 => [s]
  | S fuel' =>
      match str_find s sep with
      | None => [s]
      | Some i => take i s :: split_from fuel' (drop (i + length sep) s) sep
      end
  end.

(** [s.split(sep)] with an explicit separator. *)
Definition str_split (s sep : str) : result (list str) :=
  match sep with
  | [] => Raise (ValueError [Lit "empty separator"])
  | _ :: _ => Ok (split_from (length s) s sep)
  end.

Fixpoint replace_from (fuel : nat) (s old new : str) : str :=
  match fuel with
  | 0 => s
  | S fuel' =>
      match str_find s old with
      | None => s
      | Some i =>
          take i s ++ new ++ replace_from fuel' (drop (i + length old) s) old new
      end
  end.

(** [s.replace(old, new)]: every non-overlapping occurrence, left to right;
    for the empty pattern [new] is put before every code point and at the
    end. *)
Definition str_replace (s old new : str) : str :=
  match old with
  | [] => new ++ flat_map (fun c => c :: new) s
  | _ :: _ => replace_from (length s) s old new
  end.

(** [sep.join(parts)] *)
Fixpoint str_join (sep : str) (parts : list str) : str :=
  match parts with
  | [] => []
  | [p] => p
  | p :: rest => p ++ sep ++ str_join sep rest
  end.

(** ** replace_section, replace_exact *)

Definition replace_section (text begin_marker end_marker replace_text : str)
    (keep_markers error_if_missing : bool) : result str :=
  if negb (str_in begin_marker text) then
    if error_if_missing then
      Raise (RuntimeError
               [Lit "Marker not found in text: '"; Fmt begin_marker; Lit "'."])
    else Ok text
  else
    match str_split text begin_marker with
    | Raise e => Raise e
    | Ok splits =>
        match splits with
        | [before_begin; after_begin] =>
            match str_split after_begin end_marker with
            | Raise e => Raise e
            | Ok splits =>
                match splits with
                | [_before_end; after_end] =>
                    let replace_text :=
                      if keep_markers
                      then begin_marker ++ replace_text ++ end_marker
                      else replace_text in
                    Ok (before_begin ++ replace_text ++ after_end)
                | _ =>
                    Raise (RuntimeError
                             [Lit "Expected one marker '"; Fmt end_marker;
                              Lit "'"; Lit "; found ";
                              FmtInt (Z.of_nat (str_count text end_marker));
                              Lit "."])
                end
            end
        | _ =>
            Raise (RuntimeError
                     [Lit "Expected one marker '"; Fmt begin_marker;
                      Lit "'"; Lit "; found ";
                      FmtInt (Z.of_nat (str_count text begin_marker));
                      Lit "."])
        end
    end.

Definition replace_exact (opstr old new : str) (count : Z)
    (label : option str) : result str :=
  let found := Z.of_nat (str_count opstr old) in
  let label_str :=
    match label with Some l => [Lit " in "; Fmt l] | None => [] end in
  if negb (found =? count)%Z then
    Raise (RuntimeError
             ([Lit "Expected "; FmtInt count; Lit " string occurrence(s)"]
                ++ label_str
                ++ [Lit ";"; Lit " found "; FmtInt found; Lit ". String: ";
                    FmtRepr old]))
  else Ok (str_replace opstr old new).

(** The default arguments of the source: [count=1], [label=None]. *)
Definition replace_exact_default (opstr old new : str) : result str :=
  replace_exact opstr old new 1 None.

(** ** Encoding and integers *)

Definition byte_of (n : N) : byte := default x00 (Byte.of_N n).

(** UTF-8 of one code point; surrogates (and numbers that are no code
    point) are refused, as [str.encode()] does in its strict mode. *)
Definition utf8_encode_char (c : N) : result bytes :=
  if (c <? 0x80)%N then Ok [byte_of c]
  else if (c <? 0x800)%N then
    Ok [byte_of (0xC0 + c / 0x40); byte_of (0x80 + c mod 0x40)]
  else if (c <? 0x10000)%N then
    if ((0xD800 <=? c) && (c <=? 0xDFFF))%N then Raise (UnicodeEncodeError c)
    else Ok [byte_of (0xE0 + c / 0x1000);
             byte_of (0x80 + (c / 0x40) mod 0x40);
             byte_of (0x80 + c mod 0x40)]
  else if (c <? 0x110000)%N then
    Ok [byte_of (0xF0 + c / 0x40000);
        byte_of (0x80 + (c / 0x1000) mod 0x40);
        byte_of (0x80 + (c / 0x40) mod 0x40);
        byte_of (0x80 + c mod 0x40)]
  else Raise (UnicodeEncodeError c).

(** [s.encode()] *)
Fixpoint str_encode (s : str) : result bytes :=
  match s with
  | [] => Ok []
  | c :: s' =>
      match utf8_encode_char c with
      | Raise e => Raise e
      | Ok b =>
          match str_encode s' with
          | Raise e => Raise e
          | Ok bs => Ok (b ++ bs)
          end
      end
  end.

(** [int.from_bytes(b, byteorder='big')] *)
Definition int_from_bytes_big (b : bytes) : N :=
  foldl (fun acc x => (acc * 256 + Byte.to_N x)%N) 0%N b.

(** The character of a digit below 36: '0'..'9', then 'a'..'z'. *)
Definition digit_char (d : N) : char :=
  if (d <? 10)%N then (48 + d)%N else (87 + d)%N.

Fixpoint digits_from (fuel : nat) (n : N) : str :=
  match fuel with
  | 0 => []
  | S fuel' =>
      if (n <? 10)%N then [digit_char n]
      else digits_from fuel' (n / 10) ++ [digit_char (n mod 10)]
  end.

(** [str(n)] of a non-negative int: its decimal digits. A number of [k]
    bits has at most [k] digits. *)
Definition str_of_int (n : N) : str :=
  digits_from (S (N.to_nat (N.size n))) n.

(** ** hashlib *)

Inductive hash_name := md5 | sha256.

Definition digest_size (t : hash_name) : nat :=
  match t with md5 => 16 | sha256 => 32 end.

(** [hashlib] is Python's library, not code of this module: the digest
    functions are an interface, of which only the digest length is used. *)
Class Hashlib := {
  hash_digest : hash_name -> bytes -> bytes;
  hash_digest_length :
    forall t data, length (hash_digest t data) = digest_size t
}.

(** A hash object: its algorithm and the bytes fed so far. *)
Record HASH := { algo : hash_name; fed : bytes }.

Definition hash_new (t : hash_name) : HASH := {| algo := t; fed := [] |}.

Definition update (h : HASH) (data : bytes) : HASH :=
  {| algo := algo h; fed := fed h ++ data |}.

Definition digest `{Hashlib} (h : HASH) : bytes :=
  hash_digest (algo h) (fed h).

Definition hex_of_byte (b : byte) : str :=
  [digit_char (Byte.to_N b / 16); digit_char (Byte.to_N b mod 16)].

Definition hexdigest `{Hashlib} (h : HASH) : str :=
  flat_map hex_of_byte (digest h).

(** ** Files *)

(** [f.read(n)] on a binary file whose unread part is [f]: the data and
    the part left unread. *)
Fixpoint file_read (n : N) (f : bytes) : bytes * bytes :=
  match f with
  | [] => ([], [])
  | b :: f' =>
      if (n =? 0)%N then ([], f)
      else let '(data, rest) := file_read (N.pred n) f' in (b :: data, rest)
  end.

Definition CHUNK : N := 2 ^ 20.

(** The [while True] loop of [get_files_hash]; a file of [k] bytes takes
    at most [k] reads of data and one empty read. *)
Fixpoint read_loop (fuel : nat) (infile : bytes) (hashobj : HASH)
  : HASH :=
  match fuel with
  | 0 => hashobj
  | S fuel' =>
      let '(data, infile') := file_read CHUNK infile in
      match data with
      | [] => hashobj
      | _ :: _ => read_loop fuel' infile' (update hashobj data)
      end
  end.

(** The [for fname in filenames] loop over a file system [fs]. *)
Fixpoint hash_files (fs : gmap (list N) (list byte)) (filenames : list str)
    (hashobj : HASH) : result HASH :=
  match filenames with
  | [] => Ok hashobj
  | fname :: rest =>
      match fs !! fname with
      | None => Raise (FileNotFoundError fname)
      | Some contents =>
          hash_files fs rest (read_loop (S (length contents)) contents hashobj)
      end
  end.

(** ** get_files_hash, get_string_hash *)

(** The objects a caller may pass where a list of paths or a str is
    expected. *)
Inductive pyobj :=
| PList (items : list str)
| PTuple (items : list str)
| PStr (s : str)
| PSet (items : list str)
| PNone.

Definition type_of (o : pyobj) : py_type :=
  match o with
  | PList _ => TList
  | PTuple _ => TTuple
  | PStr _ => TStr
  | PSet _ => TSet
  | PNone => TNoneType
  end.

(** The end of both hashing functions. *)
Definition finish `{Hashlib} (hashobj : HASH) (int_only : bool) : str :=
  if int_only then str_of_int (int_from_bytes_big (digest hashobj))
  else hexdigest hashobj.

Definition get_files_hash `{Hashlib} (fs : gmap (list N) (list byte))
    (filenames : pyobj) (extrahash : str) (int_only : bool)
    (hashtype : hash_name) : result str :=
  match filenames with
  | PList filenames =>
      let hashobj := hash_new hashtype in
      match hash_files fs filenames hashobj with
      | Raise e => Raise e
      | Ok hashobj =>
          match str_encode extrahash with
          | Raise e => Raise e
          | Ok data => Ok (finish (update hashobj data) int_only)
          end
      end
  | _ =>
      Raise (RuntimeError
               [Lit "Expected a list; got a "; FmtType (type_of filenames);
                Lit "."])
  end.

Definition get_string_hash `{Hashlib} (value : pyobj) (int_only : bool)
    (hashtype : hash_name) : result str :=
  match value with
  | PStr value =>
      let hashobj := hash_new hashtype in
      match str_encode value with
      | Raise e => Raise e
      | Ok data => Ok (finish (update hashobj data) int_only)
      end
  | _ => Raise (TypeError [Lit "Expected a str."])
  end.

(** ** Reading the results back *)

(** The value of a digit character in [base] (at most 36). *)
Definition digit_value (base : N) (c : char) : option N :=
  let d :=
    if ((48 <=? c) && (c <=? 57))%N then Some (c - 48)%N
    else if ((97 <=? c) && (c <=? 122))%N then Some (c - 87)%N
    else if ((65 <=? c) && (c <=? 90))%N then Some (c - 55)%N
    else None in
  match d with
  | Some v => if (v <? base)%N then Some v else None
  | None => None
  end.

(** One more digit [c] after the digits read as [acc]. *)
Definition parse_step (base : N) (acc : option N) (c : char) : option N :=
  match acc, digit_value base c with
  | Some a, Some d => Some (a * base + d)%N
  | _, _ => None
  end.

(** [int(s, base)] on a string of digits: no sign, blanks, underscores or
    prefix; the empty string is refused. *)
Definition parse_int (base : N) (s : str) : option N :=
  match s with
  | [] => None
  | _ :: _ => foldl (parse_step base) (Some 0%N) s
  end.

(** A stand-in for hashlib to run the functions on: the digest is the sum
    of the bytes fed, written on [digest_size] bytes. *)
Definition toy_digest (t : hash_name) (data : bytes) : bytes :=
  let sum := foldl (fun acc x => (acc + Byte.to_N x)%N) 0%N data in
  replicate (digest_size t - 2) x00
    ++ [byte_of ((sum / 256) mod 256); byte_of (sum mod 256)].

Definition toy_hashlib : Hashlib :=
  {| hash_digest := toy_digest;
     hash_digest_length := fun t data =>
       match t with md5 => eq_refl | sha256 => eq_refl end |}.

(** The classes that are ordered sequences ([collections.abc.Sequence]):
    what the annotation [Sequence[str | Path]] of [filenames] admits. *)
Definition is_sequence (o : pyobj) : bool :=
  match o with
  | PList _ | PTuple _ | PStr _ => true
  | PSet _ | PNone => false
  end.

(** ** explicit_bool *)

Definition explicit_bool (value : bool) : bool := value.

(** ** Text files: readfile, writefile *)

(** The code points that UTF-8 encodes: all but the surrogates. *)
Definition valid_scalar (c : N) : bool :=
  ((c <? 0xD800) || ((0xDFFF <? c) && (c <? 0x110000)))%N.

Definition is_continuation (n : N) : bool := ((0x80 <=? n) && (n <=? 0xBF))%N.

(** [UnicodeDecodeError] is a [ValueError]; of its message only the byte
    at which decoding stops is kept. *)
Definition decode_error (b : byte) : exn :=
  ValueError [Lit "'utf-8' codec can't decode byte ";
              FmtInt (Z.of_N (Byte.to_N b))].

Definition result_cons {A} (x : A) (r : result (list A)) : result (list A) :=
  match r with
  | Ok l => Ok (x :: l)
  | Raise e => Raise e
  end.

(** [data.decode('utf-8')], strict: the well-formed sequences only (no
    overlong forms, no surrogates, nothing above U+10FFFF). *)
Fixpoint utf8_decode (data : bytes) : result str :=
  match data with
  | [] => Ok []
  | b0 :: r0 =>
      let n0 := Byte.to_N b0 in
      if (n0 <? 0x80)%N then result_cons n0 (utf8_decode r0)
      else if ((0xC2 <=? n0) && (n0 <=? 0xDF))%N then
        match r0 with
        | b1 :: r1 =>
            let n1 := Byte.to_N b1 in
            if is_continuation n1 then
              result_cons ((n0 - 0xC0) * 0x40 + (n1 - 0x80))%N (utf8_decode r1)
            else Raise (decode_error b0)
        | _ => Raise (decode_error b0)
        end
      else if ((0xE0 <=? n0) && (n0 <=? 0xEF))%N then
        match r0 with
        | b1 :: b2 :: r2 =>
            let n1 := Byte.to_N b1 in
            let n2 := Byte.to_N b2 in
            if (((if n0 =? 0xE0 then 0xA0 else 0x80) <=? n1)
                && (n1 <=? (if n0 =? 0xED then 0x9F else 0xBF)))%N
               && is_continuation n2 then
              result_cons
                ((n0 - 0xE0) * 0x1000 + (n1 - 0x80) * 0x40 + (n2 - 0x80))%N
                (utf8_decode r2)
            else Raise (decode_error b0)
        | _ => Raise (decode_error b0)
        end
      else if ((0xF0 <=? n0) && (n0 <=? 0xF4))%N then
        match r0 with
        | b1 :: b2 :: b3 :: r3 =>
            let n1 := Byte.to_N b1 in
            let n2 := Byte.to_N b2 in
            let n3 := Byte.to_N b3 in
            if (((if n0 =? 0xF0 then 0x90 else 0x80) <=? n1)
                && (n1 <=? (if n0 =? 0xF4 then 0x8F else 0xBF)))%N
               && is_continuation n2 && is_continuation n3 then
              result_cons
                ((n0 - 0xF0) * 0x40000 + (n1 - 0x80) * 0x1000
                 + (n2 - 0x80) * 0x40 + (n3 - 0x80))%N
                (utf8_decode r3)
            else Raise (decode_error b0)
        | _ => Raise (decode_error b0)
        end
      else Raise (decode_error b0)
  end.


(** Text mode with the default [newline=None], on reading: '\r\n' and a
    lone '\r' are read as '\n'. *)
Fixpoint read_newlines (s : str) : str :=
  match s with
  | [] => []
  | c :: s' =>
      if (c =? 13)%N then
        10%N :: match s' with
                | d :: s'' =>
                    if (d =? 10)%N then read_newlines s'' else read_newlines s'
                | [] => []
                end
      else c :: read_newlines s'
  end.


(** [readfile(path)]: the file system is a map from paths to contents. *)
Definition readfile (fs : gmap (list N) (list byte)) (path : str)
  : result str :=
  match fs !! path with
  | None => Raise (FileNotFoundError path)
  | Some data =>
      match utf8_decode data with
      | Raise e => Raise e
      | Ok s => Ok (read_newlines s)
      end
  end.


(** ** The shape of the hashes *)

Definition is_dec_digit (c : char) : bool := ((48 <=? c) && (c <=? 57))%N.

Definition is_hex_lower (c : char) : bool :=
  (((48 <=? c) && (c <=? 57)) || ((97 <=? c) && (c <=? 102)))%N.

(** A small file system to run the functions on. *)
Definition toy_fs : gmap (list N) (list byte) :=
  {[ py "ab" := [x61; x62]; py "a" := [x61]; py "b" := [x62];
     py "empty" := [] ]}.

(** * Properties *)

Example extract_arg_ex :
  extract_arg [py "-v"; py "--out"; py "x.txt"; py "in"] (py "--out") false
  = (Ok (Some (py "x.txt")), [py "-v"; py "in"]).
Proof. vm_compute. reflexivity. Qed.

Example str_count_ex :
  str_count (py "aaa") (py "aa") = 1
  /\ str_count (py "abcabc") (py "bc") = 2
  /\ str_count (py "ab") [] = 3.
Proof. vm_compute. auto. Qed.

Example str_split_ex :
  str_split (py "a,b,,c") (py ",") = Ok [py "a"; py "b"; []; py "c"]
  /\ str_split [] (py ",") = Ok [[]].
Proof. vm_compute. auto. Qed.

Example str_replace_ex :
  str_replace (py "abc") [] (py "-") = py "-a-b-c-"
  /\ str_replace (py "aaa") (py "aa") (py "b") = py "ba".
Proof. vm_compute. auto. Qed.

Example extract_flag_ex :
  extract_flag [py "-v"; py "in"] (py "-v") = (Ok true, [py "in"])
  /\ extract_flag [py "in"] (py "-v") = (Ok false, [py "in"]).
Proof. vm_compute. auto. Qed.

(** ** The argument list *)

Section ArgList.
Implicit Types (l pre post args : list (list N)) (x name value : list N).

Lemma list_count_app l1 l2 x :
  list_count (l1 ++ l2) x = list_count l1 x + list_count l2 x.
Proof. induction l1 as [|y l1 IH]; simpl; [done | rewrite IH; lia]. Qed.

Lemma list_count_0 l x : list_count l x = 0 <-> x ∉ l.
Proof.
  induction l as [|y l IH]; simpl.
  - split; [intros _; apply not_elem_of_nil | done].
  - rewrite not_elem_of_cons. case_decide; subst.
    + split; [lia | intros [? _]; done].
    + rewrite <- IH. split; [intros; split; [congruence | lia] | intros [_ ?]; lia].
Qed.

Lemma list_count_cons_eq l x : list_count (x :: l) x = S (list_count l x).
Proof. simpl. by rewrite decide_True. Qed.

(** A name that occurs once splits the list around it. *)
Lemma list_count_1_split pre post x :
  list_count (pre ++ x :: post) x = 1 -> (x ∉ pre) /\ (x ∉ post).
Proof.
  rewrite list_count_app, list_count_cons_eq, <- !list_count_0. lia.
Qed.

Lemma list_count_pos_split l x :
  0 < list_count l x -> exists pre post, l = pre ++ x :: post /\ (x ∉ pre).
Proof.
  induction l as [|y l IH]; simpl; [lia |].
  case_decide as Hy; subst.
  - intros _. exists [], l. split; [done | apply not_elem_of_nil].
  - intros Hc. destruct IH as (pre & post & -> & Hpre); [lia |].
    exists (y :: pre), post. split; [done |].
    rewrite not_elem_of_cons. split; [congruence | done].
Qed.

Lemma list_index_first pre post x :
  x ∉ pre -> list_index (pre ++ x :: post) x = Ok (length pre).
Proof.
  induction pre as [|y pre IH]; simpl; intros Hx.
  - by rewrite decide_True.
  - apply not_elem_of_cons in Hx as [Hxy Hx].
    rewrite decide_False by congruence. by rewrite IH.
Qed.

Lemma list_remove_first pre post x :
  x ∉ pre -> list_remove (pre ++ x :: post) x = Ok (pre ++ post).
Proof.
  induction pre as [|y pre IH]; simpl; intros Hx.
  - by rewrite decide_True.
  - apply not_elem_of_cons in Hx as [Hxy Hx].
    rewrite decide_False by congruence. by rewrite IH.
Qed.

Lemma del_slice_pair pre post x v :
  del_slice (pre ++ x :: v :: post) (length pre) (length pre + 2)
  = pre ++ post.
Proof.
  unfold del_slice. rewrite take_app_length. f_equal.
  rewrite drop_app_add'; [| done]. reflexivity.
Qed.

(** The successful path of [extract_arg], as one equation. *)
Lemma extract_arg_found pre post name value required :
  name ∉ pre -> name ∉ (value :: post) ->
  extract_arg (pre ++ name :: value :: post) name required
  = (Ok (Some value), pre ++ post).
Proof.
  intros Hpre Hpost. unfold extract_arg.
  assert (Hc : list_count (pre ++ name :: value :: post) name = 1).
  { rewrite list_count_app, list_count_cons_eq.
    apply list_count_0 in Hpre, Hpost. lia. }
  rewrite Hc. simpl (1 =? 0). simpl (1 <? 1).
  rewrite list_index_first by done.
  assert (Hlen : (length (pre ++ name :: value :: post) <=? length pre + 1)
                 = false).
  { apply Nat.leb_gt. rewrite length_app. simpl. lia. }
  rewrite Hlen. unfold list_getitem.
  assert (Hget : (pre ++ name :: value :: post) !! (length pre + 1)
                 = Some value).
  { rewrite lookup_app_r by lia.
    by replace (length pre + 1 - length pre) with 1 by lia. }
  rewrite Hget. by rewrite del_slice_pair.
Qed.

(** Name present once and last: the index of the name is the last one. *)
Lemma extract_arg_last args name required :
  list_count args name = 1 -> last args = Some name ->
  extract_arg args name required
  = (Raise (CleanError
              [Lit "No value passed after "; Fmt name; Lit " arg."]),
     args).
Proof.
  intros Hc Hlast.
  destruct (list_count_pos_split args name) as (pre & post & -> & Hpre);
    [lia |].
  apply list_count_1_split in Hc as Hboth. destruct Hboth as [_ Hpost].
  assert (post = []) as ->.
  { destruct post as [|y post]; [done |].
    exfalso. apply Hpost.
    rewrite last_app in Hlast. change (name :: y :: post)
      with ([name] ++ y :: post) in Hlast.
    rewrite last_app in Hlast.
    destruct (last (y :: post)) as [z|] eqn:Hz.
    - simpl in Hlast. injection Hlast as ->.
      apply last_Some in Hz as [l' ->]. set_solver.
    - by apply last_None in Hz. }
  unfold extract_arg. rewrite Hc. simpl (1 =? 0). simpl (1 <? 1).
  rewrite list_index_first by done.
  assert (Hlen : (length (pre ++ [name]) <=? length pre + 1) = true).
  { apply Nat.leb_le. rewrite length_app. simpl. lia. }
  by rewrite Hlen.
Qed.

(** C7. The contract of [extract_arg]: a name passed more than once
    raises; an absent name raises when [required] and otherwise gives
    [None] and leaves the list alone; a name passed once as the last
    element raises; a name passed once and followed by an element gives
    that element and removes the name and the element, nothing else. *)
Theorem extract_arg_contract args name required :
  (1 < list_count args name ->
   extract_arg args name required
   = (Raise (CleanError
               [Lit "Arg "; Fmt name; Lit " passed multiple times."]),
      args))
  /\ (list_count args name = 0 -> required = true ->
      extract_arg args name required
      = (Raise (CleanError
                  [Lit "Required argument "; Fmt name; Lit " not passed."]),
         args))
  /\ (list_count args name = 0 -> required = false ->
      extract_arg args name required = (Ok None, args))
  /\ (list_count args name = 1 -> last args = Some name ->
      extract_arg args name required
      = (Raise (CleanError
                  [Lit "No value passed after "; Fmt name; Lit " arg."]),
         args))
  /\ (forall pre value post,
        list_count args name = 1 -> args = pre ++ name :: value :: post ->
        extract_arg args name required = (Ok (Some value), pre ++ post)).
Proof.
  repeat split.
  - intros Hc. unfold extract_arg.
    destruct (Nat.eqb_spec (list_count args name) 0); [lia |].
    destruct (Nat.ltb_spec 1 (list_count args name)); [done | lia].
  - intros Hc ->. unfold extract_arg. by rewrite Hc.
  - intros Hc ->. unfold extract_arg. by rewrite Hc.
  - apply extract_arg_last.
  - intros pre value post Hc ->.
    apply list_count_1_split in Hc as [Hpre Hpost].
    by apply extract_arg_found.
Qed.

Lemma extract_arg_contract_witness :
  let a := py "-a" in let b := py "b" in let c := py "c" in
  extract_arg [a; b; a] a false
  = (Raise (CleanError [Lit "Arg "; Fmt a; Lit " passed multiple times."]),
     [a; b; a])
  /\ extract_arg [b; c] a true
     = (Raise (CleanError
                 [Lit "Required argument "; Fmt a; Lit " not passed."]),
        [b; c])
  /\ extract_arg [b; c] a false = (Ok None, [b; c])
  /\ extract_arg [b; a] a false
     = (Raise (CleanError
                 [Lit "No value passed after "; Fmt a; Lit " arg."]),
        [b; a])
  /\ extract_arg [c; a; b; c] a false = (Ok (Some b), [c; c]).
Proof.
  intros a b c. split; [| split; [| split; [| split]]].
  - apply (extract_arg_contract [a; b; a] a false). vm_compute. lia.
  - apply (extract_arg_contract [b; c] a true); reflexivity.
  - apply (extract_arg_contract [b; c] a false); reflexivity.
  - apply (extract_arg_contract [b; a] a false); reflexivity.
  - apply (extract_arg_contract [c; a; b; c] a false) with (pre := [c]);
      reflexivity.
Defined.

(** C10. No partial removal: when [extract_flag] or [extract_arg]
    raises, the argument list is as it was before the call. *)
Theorem extract_raise_atomic args name required e args' :
  (extract_arg args name required = (Raise e, args') -> args' = args)
  /\ (extract_flag args name = (Raise e, args') -> args' = args).
Proof.
  split.
  - unfold extract_arg.
    destruct (list_count args name =? 0);
      [destruct required; congruence |].
    destruct (1 <? list_count args name); [congruence |].
    destruct (list_index args name) as [i|]; [| congruence].
    destruct (length args <=? i + 1); [congruence |].
    destruct (list_getitem args (i + 1)); congruence.
  - unfold extract_flag.
    destruct (1 <? list_count args name); [congruence |].
    destruct (list_count args name =? 0); [congruence |].
    destruct (list_remove args name); congruence.
Qed.

Lemma extract_raise_atomic_witness :
  let a := py "-a" in let b := py "b" in
  let e := CleanError [Lit "Arg "; Fmt a; Lit " passed multiple times."] in
  let e' := CleanError [Lit "Flag "; Fmt a; Lit " passed multiple times."] in
  (extract_arg [a; b; a] a false = (Raise e, [a; b; a])
   /\ [a; b; a] = [a; b; a])
  /\ (extract_flag [a; b; a] a = (Raise e', [a; b; a])
      /\ [a; b; a] = [a; b; a]).
Proof.
  intros a b e e'. split; (split; [reflexivity |]).
  - apply (proj1 (extract_raise_atomic [a; b; a] a false e [a; b; a])).
    reflexivity.
  - apply (proj2 (extract_raise_atomic [a; b; a] a false e' [a; b; a])).
    reflexivity.
Defined.

(** C1, as stated, fails when the list already holds the name (or the
    value is the name itself): the inserted name is then passed twice and
    the call raises. *)
Lemma extract_arg_roundtrip_duplicate :
  let name := py "--out" in
  let original := [name] in
  let e := CleanError [Lit "Arg "; Fmt name; Lit " passed multiple times."] in
  extract_arg ([name; py "x"] ++ original) name false
  = (Raise e, [name; py "x"] ++ original)
  /\ extract_arg ([name; py "x"] ++ original) name false
     <> (Ok (Some (py "x")), original)
  /\ extract_arg ([name; name] ++ []) name false
     = (Raise e, [name; name] ++ []).
Proof.
  split; [vm_compute; reflexivity |].
  split; [vm_compute; discriminate | vm_compute; reflexivity].
Qed.

(** C1, amended. For a list that does not hold [name] and a value other
    than [name]: inserting [name; value] anywhere in the list and
    extracting gives [value] and the list as it was before. *)
Theorem extract_arg_roundtrip pre post name value required :
  name ∉ pre ++ post -> value <> name ->
  extract_arg (pre ++ [name; value] ++ post) name required
  = (Ok (Some value), pre ++ post).
Proof.
  intros Hnot Hv. apply not_elem_of_app in Hnot as [Hpre Hpost].
  apply extract_arg_found; [done |].
  apply not_elem_of_cons. split; [congruence | done].
Qed.

Lemma extract_arg_roundtrip_witness :
  extract_arg ([py "-v"] ++ [py "--out"; py "x"] ++ [py "in"])
    (py "--out") false
  = (Ok (Some (py "x")), [py "-v"] ++ [py "in"]).
Proof.
  apply (extract_arg_roundtrip [py "-v"] [py "in"] (py "--out") (py "x")).
  - apply list_count_0. reflexivity.
  - vm_compute. discriminate.
Defined.

End ArgList.

(** ** Searching a str *)

Section Search.
Implicit Types (s sub sep old new before after : list N).

Lemma startswith_prefix s p :
  startswith s p = true <-> exists r, s = p ++ r.
Proof.
  revert s. induction p as [|a p IH]; intros s; simpl.
  - split; [intros _; by exists s | done].
  - destruct s as [|b s].
    + split; [done | intros [r Hr]; discriminate].
    + case_decide as Hab; subst.
      * rewrite IH. split; intros [r Hr]; exists r; congruence.
      * split; [done | intros [r Hr]; congruence].
Qed.

Lemma startswith_app p r : startswith (p ++ r) p = true.
Proof. apply startswith_prefix. by exists r. Qed.

(** Where [find] answers [i], the pattern is at [i]. *)
Lemma str_find_Some s sub i :
  str_find s sub = Some i ->
  s = take i s ++ sub ++ drop (i + length sub) s /\ i + length sub <= length s.
Proof.
  revert i. induction s as [|c s IH]; intros i; simpl.
  - destruct sub; simpl; [| done]. intros [= <-]. split; [done | simpl; lia].
  - destruct (startswith (c :: s) sub) eqn:Hp.
    + intros [= <-]. apply startswith_prefix in Hp as [r Hr].
      change (S (length s)) with (length (c :: s)). rewrite Hr. simpl.
      rewrite drop_app_length, length_app. split; [done | lia].
    + destruct (str_find s sub) as [j|]; simpl; [| done].
      intros [= <-]. destruct (IH j eq_refl) as [Heq Hle].
      simpl. split; [by rewrite <- Heq | lia].
Qed.

(** [find] answers the leftmost place. *)
Lemma str_find_leftmost s sub a b :
  s = a ++ sub ++ b ->
  exists i, str_find s sub = Some i /\ i <= length a.
Proof.
  revert s. induction a as [|c a IH]; intros s ->; simpl.
  - exists 0. split; [| lia].
    destruct (sub ++ b) eqn:E; simpl.
    + destruct sub; [done | discriminate].
    + rewrite <- E. by rewrite startswith_app.
  - destruct (startswith (c :: a ++ sub ++ b) sub).
    + exists 0. split; [done | lia].
    + destruct (IH _ eq_refl) as (i & -> & Hi). exists (S i).
      split; [done | lia].
Qed.

Lemma str_find_None s sub a b :
  str_find s sub = None -> s <> a ++ sub ++ b.
Proof.
  intros Hf Hs. destruct (str_find_leftmost s sub a b Hs) as (i & Hi & _).
  congruence.
Qed.

Lemma str_find_length s sub i :
  str_find s sub = Some i -> length (take i s) = i.
Proof.
  intros Hf. apply str_find_Some in Hf as [_ Hle]. rewrite length_take. lia.
Qed.

(** The part after an occurrence of a non-empty pattern is shorter. *)
Lemma drop_after_shorter s sub i fuel :
  sub <> [] -> str_find s sub = Some i -> length s <= S fuel ->
  length (drop (i + length sub) s) <= fuel.
Proof.
  intros Hne Hf Hlen. apply str_find_Some in Hf as [_ Hle].
  rewrite length_drop. destruct sub; [done |]. simpl in *. lia.
Qed.

Lemma str_in_count s sub : str_in sub s = false <-> str_count s sub = 0.
Proof.
  unfold str_in, str_count. destruct sub as [|c sub].
  - destruct s; simpl; split; intros; discriminate || lia.
  - destruct s as [|d s]; [simpl; done |].
    cbn [length count_from].
    destruct (str_find (d :: s) (c :: sub)); split; done.
Qed.

(** With enough rounds, a count of zero means that the pattern is not
    found at all. *)
Lemma count_from_0 fuel s sub :
  length s <= fuel -> sub <> [] -> count_from fuel s sub = 0 ->
  str_find s sub = None.
Proof.
  intros Hlen Hne. destruct fuel as [|fuel]; simpl.
  - destruct s; [| simpl in Hlen; lia]. destruct sub; done.
  - destruct (str_find s sub); done.
Qed.

(** More rounds than the length change nothing. *)
Lemma count_from_enough fuel s sub :
  sub <> [] -> length s <= fuel ->
  count_from fuel s sub = count_from (length s) s sub.
Proof.
  intros Hne. revert s.
  induction (lt_wf fuel) as [fuel _ IH]. intros s Hlen.
  destruct fuel as [|fuel].
  - destruct s; [done | simpl in Hlen; lia].
  - destruct s as [|c s].
    + simpl. destruct sub; done.
    + cbn [length count_from].
      destruct (str_find (c :: s) sub) as [i|] eqn:Hf; [| done].
      f_equal.
      pose proof (drop_after_shorter _ _ _ fuel Hne Hf Hlen) as H1.
      pose proof (drop_after_shorter _ _ _ (length s) Hne Hf (le_n _)) as H2.
      rewrite (IH fuel) by (lia || done).
      by rewrite (IH (length s)) by (simpl in Hlen; lia || done).
Qed.

(** The equation of [count] for a non-empty pattern. *)
Lemma str_count_unfold s sub :
  sub <> [] ->
  str_count s sub
  = match str_find s sub with
    | None => 0
    | Some i => S (str_count (drop (i + length sub) s) sub)
    end.
Proof.
  intros Hne. unfold str_count. destruct sub as [|c sub]; [done |].
  destruct s as [|d s]; [done |].
  cbn [length count_from].
  destruct (str_find (d :: s) (c :: sub)) as [i|] eqn:Hf; [| done].
  f_equal. apply count_from_enough; [done |].
  by apply (drop_after_shorter _ _ _ _ Hne Hf).
Qed.

(** [split] gives one piece more than [count] counts. *)
Lemma split_from_length fuel s sep :
  length (split_from fuel s sep) = S (count_from fuel s sep).
Proof.
  revert s. induction fuel as [|fuel IH]; intros s; simpl; [done |].
  destruct (str_find s sep); simpl; [by rewrite IH | done].
Qed.

Lemma str_split_length s sep :
  sep <> [] ->
  exists parts, str_split s sep = Ok parts
                /\ length parts = S (str_count s sep).
Proof.
  intros Hne. destruct sep as [|c sep]; [done |].
  eexists. split; [reflexivity |]. apply split_from_length.
Qed.

(** [replace] is [join] over [split]. *)
Lemma replace_from_join fuel s old new :
  replace_from fuel s old new = str_join new (split_from fuel s old).
Proof.
  revert s. induction fuel as [|fuel IH]; intros s; simpl; [done |].
  destruct (str_find s old) as [i|]; [| done].
  rewrite IH. destruct (split_from fuel _ old) eqn:E; [| done].
  pose proof (split_from_length fuel (drop (i + length old) s) old) as Hl.
  rewrite E in Hl. discriminate.
Qed.

Lemma str_replace_join s old new parts :
  str_split s old = Ok parts -> str_replace s old new = str_join new parts.
Proof.
  unfold str_split, str_replace. destruct old; [done |].
  intros [= <-]. apply replace_from_join.
Qed.

(** A pattern counted once: [split] cuts at the place [find] gives. *)
Lemma str_split_once s sep :
  sep <> [] -> str_count s sep = 1 ->
  exists i, str_find s sep = Some i
            /\ str_split s sep = Ok [take i s; drop (i + length sep) s].
Proof.
  intros Hne Hc. unfold str_count, str_split in *.
  destruct sep as [|c sep]; [done |].
  destruct s as [|d s]; [simpl in Hc; lia |].
  cbn [length count_from split_from] in *.
  destruct (str_find (d :: s) (c :: sep)) as [i|] eqn:Hf; [| lia].
  exists i. split; [done |]. do 2 f_equal.
  injection Hc as Hc. apply count_from_0 in Hc; [| | done].
  - destruct (length s); simpl; [done | by rewrite Hc].
  - by apply (drop_after_shorter _ _ _ _ Hne Hf).
Qed.
End Search.

(** ** replace_section *)

Section ReplaceSection.
Implicit Types (text begin_marker end_marker replace_text : list N).
Implicit Types (keep_markers error_if_missing : bool).

Lemma str_in_find sub s i : str_find s sub = Some i -> str_in sub s = true.
Proof. unfold str_in. by intros ->. Qed.

(** The path of [replace_section] on which both markers are counted
    once in their regions. *)
Lemma replace_section_found text begin_marker end_marker replace_text
    keep_markers error_if_missing :
  begin_marker <> [] -> end_marker <> [] ->
  str_count text begin_marker = 1 ->
  exists before_begin after_begin,
    text = before_begin ++ begin_marker ++ after_begin
    /\ str_find text begin_marker = Some (length before_begin)
    /\ (str_count after_begin end_marker = 1 ->
        exists before_end after_end,
          after_begin = before_end ++ end_marker ++ after_end
          /\ str_find after_begin end_marker = Some (length before_end)
          /\ replace_section text begin_marker end_marker replace_text
               keep_markers error_if_missing
             = Ok (before_begin
                     ++ (if keep_markers
                         then begin_marker ++ replace_text ++ end_marker
                         else replace_text)
                     ++ after_end)).
Proof.
  intros Hb He Hcb.
  destruct (str_split_once text begin_marker Hb Hcb) as (i & Hfi & Hsi).
  exists (take i text), (drop (i + length begin_marker) text).
  split; [by apply str_find_Some |].
  split; [by rewrite (str_find_length _ _ _ Hfi) |].
  intros Hce.
  destruct (str_split_once _ end_marker He Hce) as (j & Hfj & Hsj).
  eexists (take j _), (drop (j + length end_marker) _).
  split; [by apply str_find_Some |].
  split; [by rewrite (str_find_length _ _ _ Hfj) |].
  unfold replace_section.
  rewrite (str_in_find _ _ _ Hfi). cbn [negb]. by rewrite Hsi, Hsj.
Qed.

(** The same, from a given cut of the text at the leftmost markers. *)
Lemma replace_section_at text begin_marker end_marker replace_text
    keep_markers error_if_missing before_begin before_end after_end :
  begin_marker <> [] -> end_marker <> [] ->
  text = before_begin ++ begin_marker ++ before_end ++ end_marker ++ after_end ->
  str_find text begin_marker = Some (length before_begin) ->
  str_find (before_end ++ end_marker ++ after_end) end_marker
  = Some (length before_end) ->
  str_count text begin_marker = 1 ->
  str_count (before_end ++ end_marker ++ after_end) end_marker = 1 ->
  replace_section text begin_marker end_marker replace_text keep_markers
    error_if_missing
  = Ok (before_begin
          ++ (if keep_markers
              then begin_marker ++ replace_text ++ end_marker
              else replace_text)
          ++ after_end).
Proof.
  intros Hb He Ht Hfb Hfe Hcb Hce.
  destruct (replace_section_found text begin_marker end_marker replace_text
              keep_markers error_if_missing Hb He Hcb)
    as (bb & ab & Ht' & Hfb' & H).
  assert (Hl : length bb = length before_begin) by congruence.
  rewrite Ht in Ht'. apply app_inj_1 in Ht' as [<- Ht']; [| done].
  apply app_inv_head in Ht' as <-.
  destruct (H Hce) as (be & ae & Ha & Hfe' & ->).
  assert (Hl' : length be = length before_end) by congruence.
  apply app_inj_1 in Ha as [<- Ha]; [| done].
  by apply app_inv_head in Ha as <-.
Qed.

(** C4, as stated, fails for an empty marker: the empty string is
    counted once in the empty region after the begin marker, and
    splitting on it raises. *)
Lemma replace_section_empty_end_marker :
  let text := py "[START]" in
  str_count text (py "[START]") = 1
  /\ text = [] ++ py "[START]" ++ []
  /\ str_count [] [] = 1
  /\ replace_section text (py "[START]") [] (py "X") false true
     = Raise (ValueError [Lit "empty separator"])
  /\ replace_section text (py "[START]") [] (py "X") false true
     <> Ok ([] ++ py "X" ++ []).
Proof. vm_compute. repeat split; discriminate. Qed.

(** C4, amended. For non-empty markers: when the begin marker is counted
    once in the text and the end marker is counted once in the part after
    it, the result is the text with everything from the begin marker to
    the end marker replaced by [replace_text], the markers kept around it
    under [keep_markers]. The two examples of the claim hold. *)
Theorem replace_section_spec :
  (forall text begin_marker end_marker replace_text keep_markers
          error_if_missing,
      begin_marker <> [] -> end_marker <> [] ->
      str_count text begin_marker = 1 ->
      exists before_begin after_begin,
        text = before_begin ++ begin_marker ++ after_begin
        /\ str_find text begin_marker = Some (length before_begin)
        /\ (str_count after_begin end_marker = 1 ->
            exists before_end after_end,
              after_begin = before_end ++ end_marker ++ after_end
              /\ str_find after_begin end_marker = Some (length before_end)
              /\ replace_section text begin_marker end_marker replace_text
                   keep_markers error_if_missing
                 = Ok (before_begin
                         ++ (if keep_markers
                             then begin_marker ++ replace_text ++ end_marker
                             else replace_text)
                         ++ after_end)))
  /\ (forall error_if_missing,
        replace_section (py "[START]middle[END]") (py "[START]")
          (py "[END]") (py "X") false error_if_missing
        = Ok (py "X"))
  /\ (forall error_if_missing,
        replace_section (py "[START]middle[END]") (py "[START]")
          (py "[END]") (py "X") true error_if_missing
        = Ok (py "[START]X[END]")).
Proof.
  split; [exact replace_section_found |].
  split; intros []; vm_compute; reflexivity.
Qed.

Lemma replace_section_spec_witness :
  replace_section (py "a<b>c") (py "<") (py ">") (py "X") true true
  = Ok (py "a<X>c").
Proof.
  destruct (proj1 replace_section_spec (py "a<b>c") (py "<") (py ">")
              (py "X") true true)
    as (bb & ab & Ht & Hf & H);
    [vm_compute; discriminate | vm_compute; discriminate | reflexivity |].
  vm_compute in Hf. injection Hf as Hf.
  destruct bb as [|x [|y bb]]; try discriminate Hf.
  vm_compute in Ht. injection Ht as <- <-.
  destruct H as (be & ae & Ha & Hg & Hr); [reflexivity |].
  vm_compute in Hg. injection Hg as Hg.
  destruct be as [|x [|y be]]; try discriminate Hg.
  vm_compute in Ha. injection Ha as <- <-.
  exact Hr.
Defined.

(** A begin marker that is present and not counted once. *)
Lemma replace_section_begin_count text begin_marker end_marker replace_text
    keep_markers error_if_missing :
  str_in begin_marker text = true ->
  str_count text begin_marker <> 1 ->
  replace_section text begin_marker end_marker replace_text keep_markers
    error_if_missing
  = match begin_marker with
    | [] => Raise (ValueError [Lit "empty separator"])
    | _ :: _ =>
        Raise (RuntimeError
                 [Lit "Expected one marker '"; Fmt begin_marker;
                  Lit "'"; Lit "; found ";
                  FmtInt (Z.of_nat (str_count text begin_marker));
                  Lit "."])
    end.
Proof.
  intros Hin Hc. unfold replace_section. rewrite Hin. cbn [negb].
  destruct begin_marker as [|c begin_marker]; [done |].
  destruct (str_split_length text (c :: begin_marker)) as (parts & -> & Hl);
    [done |].
  destruct parts as [|p1 [|p2 [|p3 parts]]]; simpl in Hl; try done.
  unfold str_count in Hc. lia.
Qed.

(** An end marker that is not counted once in the part after the begin
    marker. *)
Lemma replace_section_end_count text begin_marker end_marker replace_text
    keep_markers error_if_missing before_begin after_begin :
  str_count text begin_marker = 1 ->
  text = before_begin ++ begin_marker ++ after_begin ->
  str_find text begin_marker = Some (length before_begin) ->
  str_count after_begin end_marker <> 1 ->
  raises (replace_section text begin_marker end_marker replace_text
            keep_markers error_if_missing) = true.
Proof.
  intros Hcb Ht Hf Hce. unfold replace_section.
  rewrite (str_in_find _ _ _ Hf). cbn [negb].
  destruct begin_marker as [|c begin_marker]; [done |].
  destruct (str_split_once text (c :: begin_marker)) as (i & Hi & ->);
    [done | done |].
  assert (i = length before_begin) as -> by congruence.
  assert (drop (length before_begin + length (c :: begin_marker)) text
          = after_begin) as ->.
  { rewrite Ht at 1. rewrite <- drop_drop, drop_app_length.
    apply drop_app_length. }
  destruct end_marker as [|d end_marker]; [done |].
  destruct (str_split_length after_begin (d :: end_marker))
    as (parts & -> & Hl); [done |].
  destruct parts as [|p1 [|p2 [|p3 parts]]]; simpl in Hl; try done.
  unfold str_count in Hce. lia.
Qed.

(** C5. How [replace_section] fails: an absent begin marker raises
    under [error_if_missing] and otherwise gives the text back; a begin
    marker that is present and not counted once in the text raises; an
    end marker that is not counted once in the part after the begin
    marker raises. *)
Theorem replace_section_failures text begin_marker end_marker replace_text
    keep_markers error_if_missing :
  (str_in begin_marker text = false -> error_if_missing = true ->
   replace_section text begin_marker end_marker replace_text keep_markers
     error_if_missing
   = Raise (RuntimeError
              [Lit "Marker not found in text: '"; Fmt begin_marker;
               Lit "'."]))
  /\ (str_in begin_marker text = false -> error_if_missing = false ->
      replace_section text begin_marker end_marker replace_text
        keep_markers error_if_missing
      = Ok text)
  /\ (str_in begin_marker text = true ->
      str_count text begin_marker <> 1 ->
      raises (replace_section text begin_marker end_marker replace_text
                keep_markers error_if_missing) = true)
  /\ (forall before_begin after_begin,
        str_count text begin_marker = 1 ->
        text = before_begin ++ begin_marker ++ after_begin ->
        str_find text begin_marker = Some (length before_begin) ->
        str_count after_begin end_marker <> 1 ->
        raises (replace_section text begin_marker end_marker replace_text
                  keep_markers error_if_missing) = true).
Proof.
  split; [| split; [| split]].
  - intros Hin ->. unfold replace_section. by rewrite Hin.
  - intros Hin ->. unfold replace_section. by rewrite Hin.
  - intros Hin Hc.
    rewrite replace_section_begin_count by done. by destruct begin_marker.
  - intros before_begin after_begin. apply replace_section_end_count.
Qed.

Lemma replace_section_failures_witness :
  replace_section (py "abc") (py "<") (py ">") (py "X") false true
  = Raise (RuntimeError
             [Lit "Marker not found in text: '"; Fmt (py "<"); Lit "'."])
  /\ replace_section (py "abc") (py "<") (py ">") (py "X") false false
     = Ok (py "abc")
  /\ raises (replace_section (py "a<b<c>") (py "<") (py ">") (py "X")
               false true) = true
  /\ raises (replace_section (py "a<b>c>") (py "<") (py ">") (py "X")
               false true) = true
  /\ raises (replace_section (py "a<bc") (py "<") (py ">") (py "X")
               false true) = true.
Proof.
  split; [| split; [| split; [| split]]].
  - apply (replace_section_failures (py "abc") (py "<") (py ">") (py "X")
             false true); reflexivity.
  - apply (replace_section_failures (py "abc") (py "<") (py ">") (py "X")
             false false); reflexivity.
  - apply (replace_section_failures (py "a<b<c>") (py "<") (py ">")
             (py "X") false true); [reflexivity | vm_compute; lia].
  - apply (replace_section_failures (py "a<b>c>") (py "<") (py ">")
             (py "X") false true) with (py "a") (py "b>c>");
      [reflexivity | reflexivity | reflexivity | vm_compute; lia].
  - apply (replace_section_failures (py "a<bc") (py "<") (py ">")
             (py "X") false true) with (py "a") (py "bc");
      [reflexivity | reflexivity | reflexivity | vm_compute; lia].
Defined.
End ReplaceSection.

(** ** replace_exact *)

Section ReplaceExact.
Implicit Types (opstr old new : list N) (count : Z) (label : option (list N)).

(** C2, as stated, fails: "a" occurs three times in "aaa", so with
    [count=3] the counts agree and the call returns. *)
Lemma replace_exact_aaa_returns :
  replace_exact (py "aaa") (py "a") (py "b") 3 None = Ok (py "bbb")
  /\ raises (replace_exact (py "aaa") (py "a") (py "b") 3 None) = false.
Proof. split; vm_compute; reflexivity. Qed.

(** C2, amended. [replace_exact "aaa" "a" "b"] with [count=3] returns
    "bbb"; with the default [count=1], which is not the number of
    occurrences, it raises; and any call whose count is the number of
    occurrences returns the text with all of them replaced. *)
Theorem replace_exact_examples :
  replace_exact (py "aaa") (py "a") (py "b") 3 None = Ok (py "bbb")
  /\ replace_exact_default (py "aaa") (py "a") (py "b")
     = Raise (RuntimeError
                [Lit "Expected "; FmtInt 1; Lit " string occurrence(s)";
                 Lit ";"; Lit " found "; FmtInt 3; Lit ". String: ";
                 FmtRepr (py "a")])
  /\ (forall opstr old new label,
        replace_exact opstr old new (Z.of_nat (str_count opstr old)) label
        = Ok (str_replace opstr old new)).
Proof.
  split; [vm_compute; reflexivity |].
  split; [vm_compute; reflexivity |].
  intros opstr old new label. unfold replace_exact.
  by rewrite Z.eqb_refl.
Qed.

(** C6. The contract of [replace_exact]: it raises exactly when the
    number of occurrences of [old] is not [count] (1 by default);
    otherwise it returns the text with all occurrences replaced by
    [new], that is, for a non-empty [old], the pieces between the
    counted occurrences joined by [new]. *)
Theorem replace_exact_contract opstr old new count label :
  (raises (replace_exact opstr old new count label) = true
   <-> Z.of_nat (str_count opstr old) <> count)
  /\ (Z.of_nat (str_count opstr old) = count ->
      replace_exact opstr old new count label
      = Ok (str_replace opstr old new))
  /\ (old <> [] ->
      exists parts,
        str_split opstr old = Ok parts
        /\ length parts = S (str_count opstr old)
        /\ str_replace opstr old new = str_join new parts)
  /\ replace_exact_default opstr old new
     = replace_exact opstr old new 1 None.
Proof.
  split; [| split; [| split; [| reflexivity]]].
  - unfold replace_exact.
    destruct (Z.eqb_spec (Z.of_nat (str_count opstr old)) count);
      simpl; split; intros; congruence.
  - intros Hc. unfold replace_exact. rewrite <- Hc.
    by rewrite Z.eqb_refl.
  - intros Hne. destruct (str_split_length opstr old Hne) as (parts & Hs & Hl).
    exists parts. split; [done |]. split; [done |].
    by apply str_replace_join.
Qed.

Lemma replace_exact_contract_witness :
  raises (replace_exact (py "abcabc") (py "bc") (py "-") 1 None) = true
  /\ replace_exact (py "abcabc") (py "bc") (py "-") 2 None
     = Ok (str_replace (py "abcabc") (py "bc") (py "-"))
  /\ exists parts,
       str_split (py "abcabc") (py "bc") = Ok parts
       /\ length parts = S (str_count (py "abcabc") (py "bc"))
       /\ str_replace (py "abcabc") (py "bc") (py "-")
          = str_join (py "-") parts.
Proof.
  split; [| split].
  - apply (replace_exact_contract (py "abcabc") (py "bc") (py "-") 1 None).
    vm_compute. discriminate.
  - apply (replace_exact_contract (py "abcabc") (py "bc") (py "-") 2 None).
    reflexivity.
  - apply (replace_exact_contract (py "abcabc") (py "bc") (py "-") 2 None).
    vm_compute. discriminate.
Defined.
End ReplaceExact.

(** ** Digits *)

Section Digits.
Local Open Scope N_scope.

Lemma parse_int_foldl base (s : list N) :
  s <> [] -> parse_int base s = foldl (parse_step base) (Some 0) s.
Proof. by destruct s. Qed.

Lemma digit_value_char base d :
  d < base -> base <= 36 -> digit_value base (digit_char d) = Some d.
Proof.
  intros Hd Hb. unfold digit_value, digit_char.
  destruct (N.ltb_spec d 10).
  - replace ((48 <=? 48 + d) && (48 + d <=? 57))%bool with true
      by (symmetry; apply andb_true_iff; split; apply N.leb_le; lia).
    replace (48 + d - 48) with d by lia.
    by destruct (N.ltb_spec d base); [| lia].
  - replace ((48 <=? 87 + d) && (87 + d <=? 57))%bool with false
      by (symmetry; apply andb_false_iff; right; apply N.leb_gt; lia).
    replace ((97 <=? 87 + d) && (87 + d <=? 122))%bool with true
      by (symmetry; apply andb_true_iff; split; apply N.leb_le; lia).
    replace (87 + d - 87) with d by lia.
    by destruct (N.ltb_spec d base); [| lia].
Qed.

Lemma digits_from_nonempty fuel n : digits_from (S fuel) n <> [].
Proof.
  simpl. destruct (n <? 10); [done |].
  intros H. by apply app_eq_nil in H as [_ H].
Qed.

(** Enough rounds: the digits read back as the number. *)
Lemma digits_from_parse fuel n :
  n < 2 ^ N.of_nat fuel ->
  foldl (parse_step 10) (Some 0) (digits_from fuel n) = Some n.
Proof.
  revert n. induction fuel as [|fuel IH]; intros n Hn.
  - simpl in Hn. assert (n = 0) as -> by lia. reflexivity.
  - cbn [digits_from]. destruct (N.ltb_spec n 10) as [Hlt | Hge].
    + cbn [foldl]. unfold parse_step.
      rewrite digit_value_char by lia. reflexivity.
    + rewrite foldl_app. cbn [foldl]. rewrite IH.
      * unfold parse_step. rewrite digit_value_char.
        -- f_equal. pose proof (N.div_mod n 10). lia.
        -- apply N.mod_lt. lia.
        -- lia.
      * rewrite Nat2N.inj_succ, N.pow_succ_r' in Hn.
        apply N.Div0.div_lt_upper_bound. lia.
Qed.

Lemma str_of_int_parse n : parse_int 10 (str_of_int n) = Some n.
Proof.
  unfold str_of_int. rewrite parse_int_foldl by apply digits_from_nonempty.
  apply digits_from_parse.
  rewrite Nat2N.inj_succ, N2Nat.id, N.pow_succ_r'.
  pose proof (N.size_gt n). lia.
Qed.

(** Two hex digits a byte, most significant byte first. *)
Lemma hex_parse (b : list byte) a :
  foldl (parse_step 16) (Some a) (flat_map hex_of_byte b)
  = Some (foldl (fun acc x => acc * 256 + Byte.to_N x) a b).
Proof.
  revert a. induction b as [|x b IH]; intros a; [done |].
  cbn [flat_map hex_of_byte app foldl].
  pose proof (Byte.to_N_bounded x) as Hx.
  unfold parse_step at 2 3.
  rewrite !digit_value_char;
    [| apply N.mod_lt; lia | lia
     | apply N.Div0.div_lt_upper_bound; lia | lia].
  rewrite IH. do 2 f_equal.
  pose proof (N.div_mod (Byte.to_N x) 16). lia.
Qed.

Lemma hexdigest_parse (b : list byte) :
  b <> [] -> parse_int 16 (flat_map hex_of_byte b) = Some (int_from_bytes_big b).
Proof.
  intros Hb. rewrite parse_int_foldl; [apply hex_parse |].
  by destruct b.
Qed.
End Digits.

(** ** Hashing *)

Section Hashing.
Context `{HL : Hashlib}.
Implicit Types (fs : gmap (list N) (list byte)) (h : HASH).

Lemma file_read_spec n (f : list byte) :
  file_read n f = (take (N.to_nat n) f, drop (N.to_nat n) f).
Proof.
  revert n. induction f as [|b f IH]; intros n; simpl.
  - by rewrite take_nil, drop_nil.
  - destruct (N.eqb_spec n 0) as [-> | Hn]; [done |].
    rewrite IH. replace (N.to_nat n) with (S (N.to_nat (N.pred n))) by lia.
    reflexivity.
Qed.

Lemma update_nil h : update h [] = h.
Proof. destruct h. unfold update. simpl. by rewrite app_nil_r. Qed.

Lemma update_update h d1 d2 : update (update h d1) d2 = update h (d1 ++ d2).
Proof. unfold update. simpl. by rewrite app_assoc. Qed.

(** The chunked read loop feeds the whole file, whatever the chunking. *)
Lemma read_loop_all fuel (infile : list byte) h :
  length infile < fuel -> read_loop fuel infile h = update h infile.
Proof.
  revert infile h. induction fuel as [|fuel IH]; intros infile h Hlen; [lia |].
  cbn [read_loop]. rewrite file_read_spec.
  assert (Hc : 0 < N.to_nat CHUNK) by (unfold CHUNK; lia).
  destruct infile as [|b infile].
  - rewrite take_nil. by rewrite update_nil.
  - destruct (N.to_nat CHUNK) as [|k] eqn:Hk; [lia |].
    cbn [take]. rewrite IH.
    + rewrite update_update. cbn [drop]. rewrite <- app_comm_cons.
      by rewrite take_drop.
    + cbn [drop]. rewrite length_drop. simpl in Hlen. lia.
Qed.

(** The loop over the files feeds their contents in the order given. *)
Lemma hash_files_all fs (filenames : list (list N)) contents h :
  Forall2 (fun fname c => fs !! fname = Some c) filenames contents ->
  hash_files fs filenames h = Ok (update h (concat contents)).
Proof.
  intros Hfs. revert h.
  induction Hfs as [|fname c filenames contents Hc _ IH]; intros h;
    cbn [hash_files concat].
  - by rewrite update_nil.
  - rewrite Hc, read_loop_all by lia. by rewrite IH, update_update.
Qed.

Lemma hash_files_raise fs (filenames : list (list N)) h e :
  hash_files fs filenames h = Raise e -> exists p, e = FileNotFoundError p.
Proof.
  revert h. induction filenames as [|fname filenames IH]; intros h;
    cbn [hash_files]; [done |].
  destruct (fs !! fname); [apply IH |]. intros [= <-]. by eexists.
Qed.

Lemma utf8_encode_char_raise c e :
  utf8_encode_char c = Raise e -> e = UnicodeEncodeError c.
Proof.
  unfold utf8_encode_char.
  repeat match goal with |- context [if ?b then _ else _] => destruct b end;
    congruence.
Qed.

Lemma str_encode_raise (s : list N) e :
  str_encode s = Raise e -> exists c, e = UnicodeEncodeError c.
Proof.
  induction s as [|c s IH]; simpl; [done |].
  destruct (utf8_encode_char c) eqn:Hc.
  - destruct (str_encode s); [done |]. intros [= <-]. by apply IH.
  - intros [= <-]. apply utf8_encode_char_raise in Hc. by eexists.
Qed.

(** C3, amended. [get_files_hash] raises its input-type error exactly
    when [filenames] is not a list (other ordered sequences, such as a
    tuple, are refused); a list passes the check and, its files being
    there and [extrahash] encodable, the contents are hashed in order,
    followed by [extrahash]. *)
Theorem get_files_hash_type_check fs filenames extrahash int_only hashtype :
  (get_files_hash fs filenames extrahash int_only hashtype
   = Raise (RuntimeError
              [Lit "Expected a list; got a "; FmtType (type_of filenames);
               Lit "."])
   <-> type_of filenames <> TList)
  /\ (forall items contents data,
        filenames = PList items ->
        Forall2 (fun fname c => fs !! fname = Some c) items contents ->
        str_encode extrahash = Ok data ->
        get_files_hash fs filenames extrahash int_only hashtype
        = Ok (finish {| algo := hashtype; fed := concat contents ++ data |}
                int_only)).
Proof.
  split.
  - destruct filenames as [items| | | |]; simpl; try (split; congruence).
    split; [| done]. intros Hr. exfalso.
    destruct (hash_files fs items (hash_new hashtype)) eqn:Hh.
    + destruct (str_encode extrahash) eqn:He; [done |].
      injection Hr as ->. by apply str_encode_raise in He as [c Hc].
    + injection Hr as ->. by apply hash_files_raise in Hh as [p Hp].
  - intros items contents data -> Hfs He. simpl.
    by rewrite (hash_files_all _ _ _ _ Hfs), He.
Qed.

(** C8. Over the empty list of files, [get_files_hash] is the hash of
    [extrahash] alone: [get_string_hash] of [extrahash], for every
    [int_only] and [hashtype]. *)
Theorem get_files_hash_empty fs extrahash int_only hashtype :
  get_files_hash fs (PList []) extrahash int_only hashtype
  = get_string_hash (PStr extrahash) int_only hashtype.
Proof. reflexivity. Qed.

Lemma hash_digest_nonempty t (data : list byte) : hash_digest t data <> [].
Proof.
  intros Hd. pose proof (hash_digest_length t data) as Hl.
  rewrite Hd in Hl. by destruct t.
Qed.

(** C9. For every str and hash type, [get_string_hash] either raises the
    same encoding error under both settings of [int_only], or returns
    under both, and then the [int_only] output read in base 10 and the hex
    digest read in base 16 are the same number, the big-endian value of
    the digest bytes. *)
Theorem get_string_hash_int_hex value hashtype :
  (exists e,
      str_encode value = Raise e
      /\ get_string_hash (PStr value) true hashtype = Raise e
      /\ get_string_hash (PStr value) false hashtype = Raise e)
  \/ (exists data dec hex,
        str_encode value = Ok data
        /\ get_string_hash (PStr value) true hashtype = Ok dec
        /\ get_string_hash (PStr value) false hashtype = Ok hex
        /\ parse_int 10 dec
           = Some (int_from_bytes_big (hash_digest hashtype data))
        /\ parse_int 16 hex
           = Some (int_from_bytes_big (hash_digest hashtype data))).
Proof.
  unfold get_string_hash. destruct (str_encode value) as [data | e].
  - right. exists data. do 2 eexists.
    split; [done |]. split; [done |]. split; [done |].
    unfold finish, hexdigest. split.
    + apply str_of_int_parse.
    + apply hexdigest_parse, hash_digest_nonempty.
  - left. by exists e.
Qed.
End Hashing.

(** C3, as stated, fails: a tuple is an ordered sequence, and it is
    refused with the input-type error (before any hashing, so whatever
    the digest function is). *)
Lemma get_files_hash_tuple_refused :
  is_sequence (PTuple [py "a.txt"]) = true
  /\ @get_files_hash toy_hashlib {[ py "a.txt" := [x61] ]}
       (PTuple [py "a.txt"]) [] false md5
     = Raise (RuntimeError
                [Lit "Expected a list; got a "; FmtType TTuple; Lit "."]).
Proof. split; reflexivity. Qed.

(** The functions run on the stand-in digest. *)
Example get_string_hash_toy :
  @get_string_hash toy_hashlib (PStr (py "ab")) true md5 = Ok (py "195")
  /\ @get_string_hash toy_hashlib (PStr (py "ab")) false md5
     = Ok (py "000000000000000000000000000000c3")
  /\ @get_files_hash toy_hashlib {[ py "f" := [x61] ]} (PList [py "f"])
       (py "b") true md5 = Ok (py "195").
Proof. vm_compute. auto. Qed.

Lemma get_files_hash_type_check_witness :
  let fs : gmap (list N) (list byte) := {[ py "f" := [x61] ]} in
  @get_files_hash toy_hashlib fs (PList [py "f"]) (py "b") false sha256
  = Ok (@finish toy_hashlib {| algo := sha256; fed := concat [[x61]] ++ [x62] |}
          false).
Proof.
  intros fs.
  apply (proj2 (@get_files_hash_type_check toy_hashlib fs (PList [py "f"])
                  (py "b") false sha256) [py "f"] [[x61]] [x62]).
  - reflexivity.
  - repeat constructor.
  - reflexivity.
Defined.

Lemma get_string_hash_int_hex_witness :
  exists dec hex n,
    @get_string_hash toy_hashlib (PStr (py "ab")) true md5 = Ok dec
    /\ @get_string_hash toy_hashlib (PStr (py "ab")) false md5 = Ok hex
    /\ parse_int 10 dec = Some n
    /\ parse_int 16 hex = Some n.
Proof.
  destruct (@get_string_hash_int_hex toy_hashlib (py "ab") md5)
    as [(e & He & _) | (data & dec & hex & _ & H1 & H2 & H3 & H4)].
  - vm_compute in He. discriminate.
  - exists dec, hex. eexists. repeat (split; [eassumption |]). eassumption.
Defined.

Lemma get_files_hash_empty_witness :
  @get_files_hash toy_hashlib ∅ (PList []) (py "ab") true sha256
  = @get_string_hash toy_hashlib (PStr (py "ab")) true sha256.
Proof. apply (@get_files_hash_empty toy_hashlib ∅ (py "ab") true sha256). Defined.

(** * Further properties *)

(** ** extract_flag *)

Section ExtractFlag.
Implicit Types (l pre post args : list (list N)) (x name : list N).

Lemma filter_ne_id l x : x ∉ l -> filter (λ y, y ≠ x) l = l.
Proof.
  induction l as [|y l IH]; [done |].
  intros [Hxy Hx]%not_elem_of_cons.
  rewrite filter_cons_True by congruence. by rewrite IH.
Qed.

Lemma filter_ne_once pre post x :
  x ∉ pre -> x ∉ post -> filter (λ y, y ≠ x) (pre ++ x :: post) = pre ++ post.
Proof.
  intros Hpre Hpost. rewrite filter_app, filter_cons_False by (intros ?; done).
  by rewrite !filter_ne_id.
Qed.

Lemma list_count_filter_ne l x y :
  x ≠ y -> list_count (filter (λ z, z ≠ x) l) y = list_count l y.
Proof.
  intros Hxy. induction l as [|z l IH]; [done |].
  destruct (decide (z = x)) as [-> | Hz].
  - rewrite filter_cons_False by (intros ?; done). simpl.
    by rewrite decide_False, IH.
  - rewrite filter_cons_True by done. simpl. by rewrite IH.
Qed.

(** A flag passed at most once: the call returns whether it is there and
    the list without it. *)
Lemma extract_flag_le_1 args name :
  list_count args name <= 1 ->
  extract_flag args name
  = (Ok (bool_decide (name ∈ args)), filter (λ y, y ≠ name) args).
Proof.
  intros Hc. unfold extract_flag.
  destruct (Nat.ltb_spec 1 (list_count args name)); [lia |].
  destruct (Nat.eqb_spec (list_count args name) 0) as [H0 | H0].
  - apply list_count_0 in H0.
    by rewrite bool_decide_eq_false_2, filter_ne_id.
  - destruct (list_count_pos_split args name) as (pre & post & -> & Hpre);
      [lia |].
    assert (Hpost : name ∉ post).
    { apply (list_count_1_split pre post name). lia. }
    rewrite list_remove_first by done.
    rewrite bool_decide_eq_true_2 by set_solver.
    by rewrite filter_ne_once.
Qed.

(** X1. The contract of [extract_flag]: a flag passed more than once
    raises and leaves the list alone; an absent flag gives [False] and
    leaves the list alone; a flag passed once gives [True] and the list
    loses that one element. *)
Theorem extract_flag_contract args name :
  (1 < list_count args name ->
   extract_flag args name
   = (Raise (CleanError
               [Lit "Flag "; Fmt name; Lit " passed multiple times."]),
      args))
  /\ (list_count args name = 0 -> extract_flag args name = (Ok false, args))
  /\ (forall pre post,
        list_count args name = 1 -> args = pre ++ name :: post ->
        extract_flag args name = (Ok true, pre ++ post)).
Proof.
  split; [| split].
  - intros Hc. unfold extract_flag.
    by destruct (Nat.ltb_spec 1 (list_count args name)); [| lia].
  - intros Hc. unfold extract_flag. by rewrite Hc.
  - intros pre post Hc ->. apply list_count_1_split in Hc as Hs.
    destruct Hs as [Hpre Hpost].
    rewrite extract_flag_le_1 by lia.
    rewrite bool_decide_eq_true_2 by set_solver.
    by rewrite filter_ne_once.
Qed.

Lemma extract_flag_contract_witness :
  let a := py "-a" in let b := py "b" in
  extract_flag [a; b; a] a
  = (Raise (CleanError [Lit "Flag "; Fmt a; Lit " passed multiple times."]),
     [a; b; a])
  /\ extract_flag [b] a = (Ok false, [b])
  /\ extract_flag [b; a; b] a = (Ok true, [b; b]).
Proof.
  intros a b. split; [| split].
  - apply (extract_flag_contract [a; b; a] a). vm_compute. lia.
  - apply (extract_flag_contract [b] a). reflexivity.
  - apply (extract_flag_contract [b; a; b] a) with (pre := [b]); reflexivity.
Defined.

(** X2. Whenever [extract_flag] returns, its answer is whether the flag
    was in the list, and the list it leaves is the original one without
    the flag: all other arguments are kept, in their order. *)
Theorem extract_flag_returns args name b args' :
  extract_flag args name = (Ok b, args') ->
  b = bool_decide (name ∈ args)
  /\ args' = filter (λ y, y ≠ name) args
  /\ length args = length args' + (if b then 1 else 0)
  /\ (forall x, x ≠ name -> list_count args' x = list_count args x).
Proof.
  intros He.
  assert (Hc : list_count args name <= 1).
  { unfold extract_flag in He.
    destruct (Nat.ltb_spec 1 (list_count args name)); [done | lia]. }
  rewrite extract_flag_le_1 in He by done. injection He as <- <-.
  split; [done |]. split; [done |]. split.
  - destruct (decide (list_count args name = 0)) as [H0 | H0].
    + apply list_count_0 in H0.
      rewrite bool_decide_eq_false_2, filter_ne_id by done. lia.
    + destruct (list_count_pos_split args name) as (pre & post & -> & Hpre);
        [lia |].
      assert (Hpost : name ∉ post).
      { apply (list_count_1_split pre post name). lia. }
      rewrite bool_decide_eq_true_2 by set_solver.
      rewrite filter_ne_once by done. rewrite !length_app. simpl. lia.
  - intros x Hx. by apply list_count_filter_ne.
Qed.

Lemma extract_flag_returns_witness :
  let a := py "-a" in let b := py "b" in
  true = bool_decide (a ∈ [b; a; b])
  /\ [b; b] = filter (λ y, y ≠ a) [b; a; b]
  /\ length [b; a; b] = length [b; b] + 1
  /\ (forall x, x ≠ a -> list_count [b; b] x = list_count [b; a; b] x).
Proof.
  intros a b.
  apply (extract_flag_returns [b; a; b] a true [b; b]). reflexivity.
Defined.

(** X3. Once a flag has been extracted, it is gone: a second call
    answers [False] and leaves the list alone. *)
Theorem extract_flag_twice args name b args' :
  extract_flag args name = (Ok b, args') ->
  extract_flag args' name = (Ok false, args').
Proof.
  intros He.
  assert (Hc : list_count args name <= 1).
  { unfold extract_flag in He.
    destruct (Nat.ltb_spec 1 (list_count args name)); [done | lia]. }
  rewrite extract_flag_le_1 in He by done. injection He as _ <-.
  assert (Hn : name ∉ filter (λ y, y ≠ name) args).
  { rewrite list_elem_of_filter. by intros [? _]. }
  apply list_count_0 in Hn as H0.
  rewrite extract_flag_le_1 by lia.
  by rewrite bool_decide_eq_false_2, filter_ne_id.
Qed.

Lemma extract_flag_twice_witness :
  extract_flag [py "b"] (py "-a") = (Ok false, [py "b"]).
Proof.
  apply (extract_flag_twice [py "b"; py "-a"] (py "-a") true [py "b"]).
  reflexivity.
Defined.

(** X4. Two different flags, each passed at most once, can be extracted
    in either order: the answers and the list left are the same. *)
Theorem extract_flag_commute args a b :
  a ≠ b -> list_count args a <= 1 -> list_count args b <= 1 ->
  exists ra rb args1 args1' args2,
    extract_flag args a = (Ok ra, args1)
    /\ extract_flag args1 b = (Ok rb, args2)
    /\ extract_flag args b = (Ok rb, args1')
    /\ extract_flag args1' a = (Ok ra, args2).
Proof.
  intros Hab Ha Hb.
  exists (bool_decide (a ∈ args)), (bool_decide (b ∈ args)),
    (filter (λ y, y ≠ a) args), (filter (λ y, y ≠ b) args),
    (filter (λ y, y ≠ b) (filter (λ y, y ≠ a) args)).
  split; [by apply extract_flag_le_1 |].
  split.
  { rewrite extract_flag_le_1 by (rewrite list_count_filter_ne; done).
    f_equal. f_equal. apply bool_decide_ext.
    rewrite list_elem_of_filter. intuition congruence. }
  split; [by apply extract_flag_le_1 |].
  rewrite extract_flag_le_1 by (rewrite list_count_filter_ne; done).
  f_equal.
  - f_equal. apply bool_decide_ext. rewrite list_elem_of_filter.
    intuition congruence.
  - rewrite !list_filter_filter. apply list_filter_iff. intros x. tauto.
Qed.

Lemma extract_flag_commute_witness :
  let a := py "-a" in let b := py "-b" in let c := py "c" in
  exists ra rb args1 args1' args2,
    extract_flag [c; b; a; c] a = (Ok ra, args1)
    /\ extract_flag args1 b = (Ok rb, args2)
    /\ extract_flag [c; b; a; c] b = (Ok rb, args1')
    /\ extract_flag args1' a = (Ok ra, args2).
Proof.
  intros a b c. apply (extract_flag_commute [c; b; a; c] a b).
  - vm_compute. discriminate.
  - vm_compute. lia.
  - vm_compute. lia.
Defined.
End ExtractFlag.

(** ** extract_arg *)

Section ExtractArg.
Implicit Types (l pre post args : list (list N)) (x name value : list N).

Lemma last_elem_of l x : last l = Some x -> x ∈ l.
Proof. intros [l' ->]%last_Some. set_solver. Qed.

(** A name passed once is the last element, or is followed by a value. *)
Lemma list_count_1_cases args name :
  list_count args name = 1 ->
  (last args = Some name)
  \/ (exists pre value post,
        args = pre ++ name :: value :: post
        /\ (name ∉ pre) /\ (name ∉ (value :: post))
        /\ (last args ≠ Some name)).
Proof.
  intros Hc.
  destruct (list_count_pos_split args name) as (pre & post & -> & Hpre);
    [lia |].
  apply list_count_1_split in Hc as [_ Hpost].
  destruct post as [|value post].
  - left. apply last_snoc.
  - right. exists pre, value, post. repeat split; try done.
    rewrite last_app. change (name :: value :: post)
      with ([name] ++ value :: post).
    rewrite last_app. intros Hl.
    destruct (last (value :: post)) as [z|] eqn:Hz.
    + simpl in Hl. injection Hl as ->. by apply last_elem_of in Hz.
    + by apply last_None in Hz.
Qed.

(** X5. [extract_arg] raises exactly in three cases: the name is absent
    and required, the name is passed more than once, or the name is passed
    once as the last element. What it raises is always a [CleanError]: the
    list lookups of its body never fail. *)
Theorem extract_arg_raises_iff args name required :
  (raises (extract_arg args name required).1 = true
   <-> (list_count args name = 0 /\ required = true)
       \/ 1 < list_count args name
       \/ (list_count args name = 1 /\ last args = Some name))
  /\ (forall e args',
        extract_arg args name required = (Raise e, args') ->
        exists msg, e = CleanError msg).
Proof.
  destruct (decide (list_count args name = 0)) as [H0 | H0].
  { unfold extract_arg. rewrite H0. simpl.
    destruct required; simpl; split.
    - split; [intros _; by left | done].
    - intros e args' [= <- _]. by eexists.
    - split; [done | intros [[_ ?] | [? | [? _]]]; done || lia].
    - done. }
  destruct (decide (1 < list_count args name)) as [H2 | H2].
  { unfold extract_arg.
    destruct (Nat.eqb_spec (list_count args name) 0); [done |].
    destruct (Nat.ltb_spec 1 (list_count args name)); [| lia]. simpl. split.
    - split; [intros _; right; by left | done].
    - intros e args' [= <- _]. by eexists. }
  assert (Hc : list_count args name = 1) by lia.
  destruct (list_count_1_cases args name Hc)
    as [Hlast | (pre & value & post & -> & Hpre & Hpost & Hlast)].
  - rewrite extract_arg_last by done. simpl. split.
    + split; [intros _; right; right; done | done].
    + intros e args' [= <- _]. by eexists.
  - rewrite extract_arg_found by done. simpl. split; [| done].
    split; [done |]. intros [[? _] | [? | [_ ?]]]; done || lia.
Qed.

Lemma extract_arg_raises_iff_witness :
  let a := py "-a" in let b := py "b" in
  raises (extract_arg [b; a] a false).1 = true
  /\ exists msg,
       CleanError [Lit "No value passed after "; Fmt a; Lit " arg."]
       = CleanError msg.
Proof.
  intros a b. split.
  - apply (proj1 (extract_arg_raises_iff [b; a] a false)).
    right. right. split; reflexivity.
  - apply (proj2 (extract_arg_raises_iff [b; a] a false) _ [b; a]).
    reflexivity.
Defined.

(** X6. Whenever [extract_arg] returns a value, the name was in the list
    once, the value was the element right after it, and the list left is
    the original one without these two elements; the name is no longer in
    it. *)
Theorem extract_arg_returns args name required value args' :
  extract_arg args name required = (Ok (Some value), args') ->
  exists pre post,
    args = pre ++ name :: value :: post
    /\ args' = pre ++ post
    /\ (name ∉ args')
    /\ length args = length args' + 2.
Proof.
  intros He.
  destruct (decide (list_count args name = 0)) as [H0 | H0].
  { unfold extract_arg in He. rewrite H0 in He. simpl in He.
    by destruct required. }
  destruct (decide (1 < list_count args name)) as [H2 | H2].
  { unfold extract_arg in He.
    destruct (Nat.eqb_spec (list_count args name) 0); [done |].
    by destruct (Nat.ltb_spec 1 (list_count args name)); [| lia]. }
  assert (Hc : list_count args name = 1) by lia.
  destruct (list_count_1_cases args name Hc)
    as [Hlast | (pre & v & post & -> & Hpre & Hpost & Hlast)].
  - by rewrite extract_arg_last in He.
  - rewrite extract_arg_found in He by done. injection He as <- <-.
    exists pre, post. split; [done |]. split; [done |].
    apply not_elem_of_cons in Hpost as [_ Hpost]. split.
    + by apply not_elem_of_app.
    + rewrite !length_app. simpl. lia.
Qed.

Lemma extract_arg_returns_witness :
  let a := py "-a" in let b := py "b" in let c := py "c" in
  exists pre post,
    [c; a; b; c] = pre ++ a :: b :: post
    /\ [c; c] = pre ++ post
    /\ (a ∉ [c; c])
    /\ length [c; a; b; c] = length [c; c] + 2.
Proof.
  intros a b c.
  apply (extract_arg_returns [c; a; b; c] a false b [c; c]). reflexivity.
Defined.

(** X7. [extract_arg] returns [None] only for an absent name that is not
    required, and then leaves the list alone. *)
Theorem extract_arg_none args name required args' :
  extract_arg args name required = (Ok None, args') ->
  (name ∉ args) /\ required = false /\ args' = args.
Proof.
  unfold extract_arg.
  destruct (Nat.eqb_spec (list_count args name) 0) as [H0 | H0].
  - apply list_count_0 in H0. destruct required; [done |].
    by intros [= <-].
  - destruct (1 <? list_count args name); [done |].
    destruct (list_index args name) as [i|]; [| done].
    destruct (length args <=? i + 1); [done |].
    by destruct (list_getitem args (i + 1)).
Qed.

Lemma extract_arg_none_witness :
  (py "-a" ∉ [py "b"]) /\ false = false /\ [py "b"] = [py "b"].
Proof.
  apply (extract_arg_none [py "b"] (py "-a") false [py "b"]). reflexivity.
Defined.

(** X8. Once an argument has been extracted, it is gone: a second call
    that does not require it gives [None] and leaves the list alone, and
    one that requires it raises. *)
Theorem extract_arg_twice args name required value args' :
  extract_arg args name required = (Ok (Some value), args') ->
  extract_arg args' name false = (Ok None, args')
  /\ extract_arg args' name true
     = (Raise (CleanError
                 [Lit "Required argument "; Fmt name; Lit " not passed."]),
        args').
Proof.
  intros He.
  destruct (extract_arg_returns _ _ _ _ _ He) as (pre & post & _ & _ & Hn & _).
  apply list_count_0 in Hn. unfold extract_arg. by rewrite Hn.
Qed.

Lemma extract_arg_twice_witness :
  let a := py "-a" in let b := py "b" in let c := py "c" in
  extract_arg [c] a false = (Ok None, [c])
  /\ extract_arg [c] a true
     = (Raise (CleanError
                 [Lit "Required argument "; Fmt a; Lit " not passed."]),
        [c]).
Proof.
  intros a b c. apply (extract_arg_twice [a; b; c] a false b [c]).
  reflexivity.
Defined.
End ExtractArg.

(** ** replace_section, further *)

Section ReplaceSectionMore.
Implicit Types (text begin_marker end_marker replace_text : list N).
Implicit Types (keep_markers error_if_missing : bool).

Lemma str_in_empty text : str_in [] text = true.
Proof. unfold str_in. by destruct text. Qed.

Lemma str_split_twice_inv text sep p1 p2 :
  str_split text sep = Ok [p1; p2] ->
  sep <> [] /\ str_count text sep = 1
  /\ text = p1 ++ sep ++ p2 /\ str_find text sep = Some (length p1).
Proof.
  intros Hs. assert (Hne : sep <> []) by (by destruct sep).
  destruct (str_split_length text sep Hne) as (parts & Hp & Hl).
  rewrite Hs in Hp. injection Hp as <-. simpl in Hl.
  assert (Hc : str_count text sep = 1) by lia.
  destruct (str_split_once text sep Hne Hc) as (i & Hi & Hs').
  rewrite Hs in Hs'. injection Hs' as -> ->.
  split; [done |]. split; [done |].
  split; [by apply str_find_Some |].
  by rewrite (str_find_length _ _ _ Hi).
Qed.

(** X9. An empty marker always raises: an empty begin marker on every
    text and for both settings of [error_if_missing]; an empty end marker
    whenever the begin marker is counted once. The error is the
    [ValueError] of [str.split]. *)
Theorem replace_section_empty_marker text begin_marker end_marker
    replace_text keep_markers error_if_missing :
  (begin_marker = [] ->
   replace_section text begin_marker end_marker replace_text keep_markers
     error_if_missing
   = Raise (ValueError [Lit "empty separator"]))
  /\ (begin_marker <> [] -> str_count text begin_marker = 1 ->
      end_marker = [] ->
      replace_section text begin_marker end_marker replace_text keep_markers
        error_if_missing
      = Raise (ValueError [Lit "empty separator"])).
Proof.
  split.
  - intros ->. unfold replace_section. by rewrite str_in_empty.
  - intros Hb Hc ->.
    destruct (str_split_once text begin_marker Hb Hc) as (i & Hi & Hs).
    unfold replace_section. rewrite (str_in_find _ _ _ Hi). cbn [negb].
    by rewrite Hs.
Qed.

Lemma replace_section_empty_marker_witness :
  replace_section (py "abc") [] (py ">") (py "X") false false
  = Raise (ValueError [Lit "empty separator"])
  /\ replace_section (py "a<bc") (py "<") [] (py "X") false false
     = Raise (ValueError [Lit "empty separator"]).
Proof.
  split.
  - apply (proj1 (replace_section_empty_marker (py "abc") [] (py ">")
                    (py "X") false false)).
    reflexivity.
  - apply (proj2 (replace_section_empty_marker (py "a<bc") (py "<") []
                    (py "X") false false));
      [vm_compute; discriminate | reflexivity ..].
Defined.

(** X10. When [replace_section] returns, either the begin marker is
    absent, missing markers are tolerated and the text comes back as it
    is; or both markers are non-empty, the begin marker is counted once in
    the text, the end marker once in the part after it, and the result is
    the text with the section replaced. *)
Theorem replace_section_returns text begin_marker end_marker replace_text
    keep_markers error_if_missing r :
  replace_section text begin_marker end_marker replace_text keep_markers
    error_if_missing = Ok r ->
  (str_in begin_marker text = false /\ error_if_missing = false /\ r = text)
  \/ (begin_marker <> [] /\ end_marker <> []
      /\ str_count text begin_marker = 1
      /\ exists before_begin before_end after_end,
           text = before_begin ++ begin_marker
                    ++ before_end ++ end_marker ++ after_end
           /\ str_count (before_end ++ end_marker ++ after_end) end_marker = 1
           /\ r = before_begin
                    ++ (if keep_markers
                        then begin_marker ++ replace_text ++ end_marker
                        else replace_text)
                    ++ after_end).
Proof.
  unfold replace_section. destruct (str_in begin_marker text) eqn:Hin.
  - cbn [negb]. intros Hr. right.
    destruct (str_split text begin_marker) as [parts|] eqn:Hs; [| done].
    destruct parts as [|bb [|ab [|? ?]]]; try done.
    destruct (str_split ab end_marker) as [parts|] eqn:Hs'; [| done].
    destruct parts as [|be [|ae [|? ?]]]; try done.
    injection Hr as <-.
    apply str_split_twice_inv in Hs as (Hb & Hcb & -> & _).
    apply str_split_twice_inv in Hs' as (He & Hce & -> & _).
    split; [done |]. split; [done |]. split; [done |].
    by exists bb, be, ae.
  - cbn [negb]. destruct error_if_missing; [done |].
    intros [= <-]. by left.
Qed.

Lemma replace_section_returns_witness :
  (str_in (py "<") (py "a<b>c") = false /\ false = false
   /\ py "aXc" = py "a<b>c")
  \/ (py "<" <> [] /\ py ">" <> []
      /\ str_count (py "a<b>c") (py "<") = 1
      /\ exists before_begin before_end after_end,
           py "a<b>c" = before_begin ++ py "<"
                          ++ before_end ++ py ">" ++ after_end
           /\ str_count (before_end ++ py ">" ++ after_end) (py ">") = 1
           /\ py "aXc" = before_begin ++ py "X" ++ after_end).
Proof.
  apply (replace_section_returns (py "a<b>c") (py "<") (py ">") (py "X")
           false false (py "aXc")).
  reflexivity.
Defined.

(** X11. Putting a section back: with [keep_markers], replacing the
    section by the text it already holds gives the text itself. *)
Theorem replace_section_same text begin_marker end_marker
    error_if_missing before_begin before_end after_end :
  begin_marker <> [] -> end_marker <> [] ->
  text = before_begin ++ begin_marker ++ before_end ++ end_marker ++ after_end ->
  str_find text begin_marker = Some (length before_begin) ->
  str_find (before_end ++ end_marker ++ after_end) end_marker
  = Some (length before_end) ->
  str_count text begin_marker = 1 ->
  str_count (before_end ++ end_marker ++ after_end) end_marker = 1 ->
  replace_section text begin_marker end_marker before_end true
    error_if_missing
  = Ok text.
Proof.
  intros Hb He Ht Hfb Hfe Hcb Hce.
  rewrite (replace_section_at text begin_marker end_marker before_end true
             error_if_missing before_begin before_end after_end) by done.
  rewrite Ht. by rewrite <- !app_assoc.
Qed.

Lemma replace_section_same_witness :
  replace_section (py "a<b>c") (py "<") (py ">") (py "b") true true
  = Ok (py "a<b>c").
Proof.
  apply (replace_section_same (py "a<b>c") (py "<") (py ">") true
           (py "a") (py "b") (py "c"));
    solve [reflexivity | vm_compute; discriminate].
Defined.

(** X12. The failure on the end marker reports a count taken over the
    whole text, not over the part after the begin marker where the marker
    was looked for: the reported number can be 1. *)
Theorem replace_section_end_error text begin_marker end_marker replace_text
    keep_markers error_if_missing before_begin after_begin :
  begin_marker <> [] -> end_marker <> [] ->
  str_count text begin_marker = 1 ->
  text = before_begin ++ begin_marker ++ after_begin ->
  str_find text begin_marker = Some (length before_begin) ->
  str_count after_begin end_marker <> 1 ->
  replace_section text begin_marker end_marker replace_text keep_markers
    error_if_missing
  = Raise (RuntimeError
             [Lit "Expected one marker '"; Fmt end_marker; Lit "'";
              Lit "; found ";
              FmtInt (Z.of_nat (str_count text end_marker)); Lit "."]).
Proof.
  intros Hb He Hcb Ht Hf Hce. unfold replace_section.
  rewrite (str_in_find _ _ _ Hf). cbn [negb].
  destruct (str_split_once text begin_marker Hb Hcb) as (i & Hi & ->).
  assert (i = length before_begin) as -> by congruence.
  assert (drop (length before_begin + length begin_marker) text
          = after_begin) as ->.
  { rewrite Ht at 1. rewrite <- drop_drop, drop_app_length.
    apply drop_app_length. }
  destruct (str_split_length after_begin end_marker He) as (parts & -> & Hl).
  destruct parts as [|p1 [|p2 [|p3 parts]]]; simpl in Hl; try done.
  lia.
Qed.

Lemma replace_section_end_error_witness :
  replace_section (py "a>b<c") (py "<") (py ">") (py "X") false true
  = Raise (RuntimeError
             [Lit "Expected one marker '"; Fmt (py ">"); Lit "'";
              Lit "; found ";
              FmtInt (Z.of_nat (str_count (py "a>b<c") (py ">")));
              Lit "."])
  /\ str_count (py "a>b<c") (py ">") = 1.
Proof.
  split; [| reflexivity].
  apply (replace_section_end_error (py "a>b<c") (py "<") (py ">") (py "X")
           false true (py "a>b") (py "c"));
    solve [reflexivity | vm_compute; discriminate].
Defined.
End ReplaceSectionMore.

(** ** replace_exact, further *)

Section ReplaceExactMore.
Implicit Types (opstr old new before after : list N) (count : Z).
Implicit Types (label : option (list N)).

Lemma replace_from_same fuel s old : replace_from fuel s old old = s.
Proof.
  revert s. induction fuel as [|fuel IH]; intros s; simpl; [done |].
  destruct (str_find s old) as [i|] eqn:Hf; [| done].
  rewrite IH. by apply str_find_Some in Hf as [<- _].
Qed.

Lemma str_replace_same s old : str_replace s old old = s.
Proof.
  unfold str_replace. destruct old as [|c old].
  - simpl. induction s as [|d s IH]; simpl; [done | by rewrite IH].
  - apply replace_from_same.
Qed.

Lemma replace_from_length fuel s old new :
  length (replace_from fuel s old new) + count_from fuel s old * length old
  = length s + count_from fuel s old * length new.
Proof.
  revert s. induction fuel as [|fuel IH]; intros s; simpl; [lia |].
  destruct (str_find s old) as [i|] eqn:Hf; [| lia].
  apply str_find_Some in Hf as [Hs Hle].
  specialize (IH (drop (i + length old) s)).
  rewrite !length_app. rewrite length_take, length_drop in *. lia.
Qed.

Lemma str_replace_absent s old new :
  str_in old s = false -> str_replace s old new = s.
Proof.
  intros Hin. unfold str_replace. destruct old as [|c old].
  - by rewrite str_in_empty in Hin.
  - unfold str_in in Hin. destruct s as [|d s]; [done |].
    cbn [length replace_from].
    by destruct (str_find (d :: s) (c :: old)).
Qed.

(** X13. One occurrence, the default call: the text around the
    occurrence is kept and the occurrence becomes [new]. *)
Theorem replace_exact_single opstr old new before after :
  old <> [] ->
  opstr = before ++ old ++ after ->
  str_find opstr old = Some (length before) ->
  str_count opstr old = 1 ->
  replace_exact_default opstr old new = Ok (before ++ new ++ after).
Proof.
  intros Hne Hs Hf Hc. unfold replace_exact_default, replace_exact.
  rewrite Hc. simpl.
  destruct (str_split_once opstr old Hne Hc) as (i & Hi & Hsp).
  rewrite (str_replace_join _ _ _ _ Hsp). simpl.
  assert (i = length before) as -> by congruence.
  rewrite Hs at 1 2. rewrite take_app_length.
  by rewrite <- drop_drop, drop_app_length, drop_app_length.
Qed.

Lemma replace_exact_single_witness :
  replace_exact_default (py "v = 1;") (py "1") (py "22")
  = Ok (py "v = " ++ py "22" ++ py ";").
Proof.
  apply (replace_exact_single (py "v = 1;") (py "1") (py "22") (py "v = ")
           (py ";")); solve [reflexivity | vm_compute; discriminate].
Defined.

(** X14. Replacing a string by itself returns the text as it is, for any
    matching count (also for the empty string). *)
Theorem replace_exact_same opstr old count label :
  Z.of_nat (str_count opstr old) = count ->
  replace_exact opstr old old count label = Ok opstr.
Proof.
  intros Hc. unfold replace_exact. rewrite Hc, Z.eqb_refl. simpl.
  by rewrite str_replace_same.
Qed.

Lemma replace_exact_same_witness :
  replace_exact (py "abcabc") (py "bc") (py "bc") 2 None = Ok (py "abcabc").
Proof.
  apply (replace_exact_same (py "abcabc") (py "bc") 2 None). reflexivity.
Defined.

(** X15. The length of the result: each of the [count] occurrences of a
    non-empty [old] gives way to one [new]. *)
Theorem replace_exact_length opstr old new count label r :
  old <> [] ->
  replace_exact opstr old new count label = Ok r ->
  (0 <= count)%Z
  /\ length r + Z.to_nat count * length old
     = length opstr + Z.to_nat count * length new.
Proof.
  intros Hne. unfold replace_exact.
  destruct (Z.eqb_spec (Z.of_nat (str_count opstr old)) count) as [<- | ?];
    [| done].
  simpl. intros [= <-]. split; [lia |]. rewrite Nat2Z.id.
  unfold str_replace, str_count. destruct old as [|c old]; [done |].
  apply replace_from_length.
Qed.

Lemma replace_exact_length_witness :
  (0 <= 2)%Z
  /\ length (py "a-a-") + Z.to_nat 2 * length (py "bc")
     = length (py "abcabc") + Z.to_nat 2 * length (py "-").
Proof.
  apply (replace_exact_length (py "abcabc") (py "bc") (py "-") 2 None
           (py "a-a-")); [vm_compute; discriminate | reflexivity].
Defined.

(** X16. Expecting no occurrence: with [count=0] the call returns the
    text as it is when [old] is not in it, and raises when it is. *)
Theorem replace_exact_zero opstr old new label :
  (str_in old opstr = false ->
   replace_exact opstr old new 0 label = Ok opstr)
  /\ (str_in old opstr = true ->
      raises (replace_exact opstr old new 0 label) = true).
Proof.
  split; intros Hin; unfold replace_exact.
  - apply str_in_count in Hin as Hc. rewrite Hc. simpl.
    by rewrite str_replace_absent.
  - destruct (Z.eqb_spec (Z.of_nat (str_count opstr old)) 0) as [Hc | Hc];
      [| done].
    assert (H0 : str_count opstr old = 0) by lia.
    apply str_in_count in H0. congruence.
Qed.

Lemma replace_exact_zero_witness :
  replace_exact (py "abc") (py "x") (py "y") 0 None = Ok (py "abc")
  /\ raises (replace_exact (py "abc") (py "b") (py "y") 0 None) = true.
Proof.
  split.
  - apply (proj1 (replace_exact_zero (py "abc") (py "x") (py "y") None)).
    reflexivity.
  - apply (proj2 (replace_exact_zero (py "abc") (py "b") (py "y") None)).
    reflexivity.
Defined.
End ReplaceExactMore.

(** ** UTF-8 *)

Section Utf8.
Local Open Scope N_scope.

(** Names the quotients and remainders of the goal, with their equations,
    so that [lia] can work with them. *)
Ltac name_divmod :=
  repeat match goal with
    | |- context [?a / ?b] =>
        pose proof (N.div_mod' a b);
        pose proof (N.mod_lt a b ltac:(lia));
        generalize dependent (a mod b); generalize dependent (a / b); intros
    | |- context [?a mod ?b] =>
        pose proof (N.div_mod' a b);
        pose proof (N.mod_lt a b ltac:(lia));
        generalize dependent (a mod b); generalize dependent (a / b); intros
    | H : context [?a / ?b] |- _ =>
        pose proof (N.div_mod' a b);
        pose proof (N.mod_lt a b ltac:(lia));
        generalize dependent (a mod b); generalize dependent (a / b); intros
    end.

(** Settles the comparisons of the goal from the hypotheses. *)
Ltac settle_tests :=
  repeat match goal with
    | |- context [?a <? ?b] =>
        first [ replace (a <? b) with true
                  by (symmetry; apply N.ltb_lt; name_divmod; lia)
              | replace (a <? b) with false
                  by (symmetry; apply N.ltb_ge; name_divmod; lia) ]
    | |- context [?a <=? ?b] =>
        first [ replace (a <=? b) with true
                  by (symmetry; apply N.leb_le; name_divmod; lia)
              | replace (a <=? b) with false
                  by (symmetry; apply N.leb_gt; name_divmod; lia) ]
    | |- context [?a =? ?b] =>
        first [ replace (a =? b) with true
                  by (symmetry; apply N.eqb_eq; name_divmod; lia)
              | replace (a =? b) with false
                  by (symmetry; apply N.eqb_neq; name_divmod; lia) ]
    end.


Lemma utf8_encode_char_valid c :
  utf8_encode_char c
  = if valid_scalar c
    then utf8_encode_char c
    else Raise (UnicodeEncodeError c).
Proof.
  unfold valid_scalar. destruct (N.ltb_spec c 0xD800); [done |].
  destruct (N.ltb_spec 0xDFFF c); simpl.
  - destruct (N.ltb_spec c 0x110000); [done |].
    unfold utf8_encode_char. by settle_tests.
  - unfold utf8_encode_char. by settle_tests.
Qed.

Lemma utf8_encode_char_ok c :
  valid_scalar c = true -> exists b, utf8_encode_char c = Ok b.
Proof.
  unfold valid_scalar, utf8_encode_char. intros Hv.
  destruct (N.ltb_spec c 0x80); [by eexists |].
  destruct (N.ltb_spec c 0x800); [by eexists |].
  destruct (N.ltb_spec c 0x10000).
  - destruct (N.ltb_spec c 0xD800); [| simpl in Hv].
    + settle_tests. simpl. by eexists.
    + destruct (N.ltb_spec 0xDFFF c); [| done].
      settle_tests. simpl. by eexists.
  - destruct (N.ltb_spec c 0x110000); [by eexists |].
    destruct (N.ltb_spec c 0xD800); [lia |].
    simpl in Hv. by rewrite andb_false_r in Hv.
Qed.



Lemma str_encode_ok (s : list N) :
  Forall (λ c, valid_scalar c = true) s -> exists data, str_encode s = Ok data.
Proof.
  induction 1 as [|c s Hc _ [bs IH]]; simpl; [by eexists |].
  destruct (utf8_encode_char_ok c Hc) as [b ->]. rewrite IH. by eexists.
Qed.

(** Encoding stops at the first code point that is not encodable. *)
Lemma str_encode_first_invalid (pre post : list N) c :
  Forall (λ c, valid_scalar c = true) pre -> valid_scalar c = false ->
  str_encode (pre ++ c :: post) = Raise (UnicodeEncodeError c).
Proof.
  intros Hpre Hc. induction Hpre as [|d pre Hd _ IH]; simpl.
  - by rewrite utf8_encode_char_valid, Hc.
  - destruct (utf8_encode_char_ok d Hd) as [b ->]. by rewrite IH.
Qed.
End Utf8.

(** ** readfile, writefile *)

Section TextFiles.
Implicit Types (fs : gmap (list N) (list byte)) (path txt linesep : list N).




(** Nothing read in text mode holds a '\r'. *)
Lemma read_newlines_no_cr n txt :
  length txt <= n -> 13%N ∉ read_newlines txt.
Proof.
  revert txt. induction n as [|n IH]; intros txt Hn.
  { destruct txt; [apply not_elem_of_nil | simpl in Hn; lia]. }
  destruct txt as [|c txt]; [apply not_elem_of_nil |].
  cbn [read_newlines]. simpl in Hn.
  destruct (N.eqb_spec c 13) as [-> | Hc].
  - apply not_elem_of_cons. split; [done |].
    destruct txt as [|d txt]; [apply not_elem_of_nil |].
    simpl in Hn. destruct (d =? 10)%N; apply IH; simpl; lia.
  - apply not_elem_of_cons. split; [done |]. apply IH. lia.
Qed.







End TextFiles.

(** ** Hashing, further *)

Section HashingMore.
Context `{HL : Hashlib}.
Implicit Types (fs : gmap (list N) (list byte)) (h : HASH).
Implicit Types (items : list (list N)) (extrahash : list N).

(** X20. The two outputs of [get_files_hash] agree as those of
    [get_string_hash] do: for a list of files, either both settings of
    [int_only] raise the same error, or both return and the decimal output
    and the hex digest read as the same number. *)
Theorem get_files_hash_int_hex fs items extrahash hashtype :
  (exists e,
      get_files_hash fs (PList items) extrahash true hashtype = Raise e
      /\ get_files_hash fs (PList items) extrahash false hashtype = Raise e)
  \/ (exists dec hex n,
        get_files_hash fs (PList items) extrahash true hashtype = Ok dec
        /\ get_files_hash fs (PList items) extrahash false hashtype = Ok hex
        /\ parse_int 10 dec = Some n
        /\ parse_int 16 hex = Some n).
Proof.
  unfold get_files_hash.
  destruct (hash_files fs items (hash_new hashtype)) as [h | e];
    [| left; by exists e].
  destruct (str_encode extrahash) as [data | e]; [| left; by exists e].
  right. do 3 eexists. split; [done |]. split; [done |].
  unfold finish, hexdigest. split.
  - apply str_of_int_parse.
  - apply hexdigest_parse, hash_digest_nonempty.
Qed.

(** X21. Only the concatenation of the contents is hashed: two lists of
    files whose contents, put end to end, are the same bytes have the same
    hash (file names and file boundaries do not enter it). *)
Theorem get_files_hash_concat fs items1 items2 contents1 contents2
    extrahash int_only hashtype :
  Forall2 (fun fname c => fs !! fname = Some c) items1 contents1 ->
  Forall2 (fun fname c => fs !! fname = Some c) items2 contents2 ->
  concat contents1 = concat contents2 ->
  get_files_hash fs (PList items1) extrahash int_only hashtype
  = get_files_hash fs (PList items2) extrahash int_only hashtype.
Proof.
  intros H1 H2 Hc. unfold get_files_hash.
  by rewrite (hash_files_all _ _ _ _ H1), (hash_files_all _ _ _ _ H2), Hc.
Qed.

Lemma hash_files_first_missing fs (pre post : list (list N)) f h :
  Forall (λ p, is_Some (fs !! p)) pre -> fs !! f = None ->
  hash_files fs (pre ++ f :: post) h = Raise (FileNotFoundError f).
Proof.
  intros Hpre Hf. revert h.
  induction Hpre as [|p pre [c Hp] _ IH]; intros h; cbn [app hash_files].
  - by rewrite Hf.
  - rewrite Hp. apply IH.
Qed.

(** X22. A missing file: the call raises [FileNotFoundError] for the
    first file of the list that is not there, whatever [extrahash] is
    (the files are read before [extrahash] is encoded). *)
Theorem get_files_hash_first_missing fs (pre post : list (list N)) f
    extrahash int_only hashtype :
  Forall (λ p, is_Some (fs !! p)) pre -> fs !! f = None ->
  get_files_hash fs (PList (pre ++ f :: post)) extrahash int_only hashtype
  = Raise (FileNotFoundError f).
Proof.
  intros Hpre Hf. unfold get_files_hash.
  by rewrite hash_files_first_missing.
Qed.

(** X23. Empty files add nothing: over files that are all empty,
    [get_files_hash] is [get_string_hash] of [extrahash]. *)
Theorem get_files_hash_empty_files fs items extrahash int_only hashtype :
  Forall (λ p, fs !! p = Some []) items ->
  get_files_hash fs (PList items) extrahash int_only hashtype
  = get_string_hash (PStr extrahash) int_only hashtype.
Proof.
  intros Hall. unfold get_files_hash, get_string_hash.
  assert (Hh : forall h, hash_files fs items h = Ok h).
  { induction Hall as [|p items Hp _ IH]; intros h; cbn [hash_files];
      [done |].
    rewrite Hp, read_loop_all by (simpl; lia). by rewrite update_nil. }
  by rewrite Hh.
Qed.

Lemma digit_char_hex d : (d < 16)%N -> is_hex_lower (digit_char d) = true.
Proof.
  intros Hd. unfold is_hex_lower, digit_char.
  destruct (N.ltb_spec d 10).
  - apply orb_true_iff. left. apply andb_true_iff.
    split; apply N.leb_le; lia.
  - apply orb_true_iff. right. apply andb_true_iff.
    split; apply N.leb_le; lia.
Qed.

Lemma hex_of_bytes_format (b : list byte) :
  length (flat_map hex_of_byte b) = 2 * length b
  /\ Forall (λ c, is_hex_lower c = true) (flat_map hex_of_byte b).
Proof.
  induction b as [|x b [IHl IHf]]; [by split |].
  cbn [flat_map hex_of_byte app length]. split; [lia |].
  pose proof (Byte.to_N_bounded x).
  repeat constructor; [apply digit_char_hex .. | done].
  - apply N.Div0.div_lt_upper_bound. lia.
  - apply N.mod_lt. lia.
Qed.

Lemma read_loop_algo fuel (f : list byte) h :
  algo (read_loop fuel f h) = algo h.
Proof.
  revert f h. induction fuel as [|fuel IH]; intros f h; cbn [read_loop];
    [done |].
  destruct (file_read CHUNK f) as [[|? ?] ?]; [done |]. by rewrite IH.
Qed.

Lemma hash_files_algo fs items h h' :
  hash_files fs items h = Ok h' -> algo h' = algo h.
Proof.
  revert h. induction items as [|p items IH]; intros h; cbn [hash_files].
  - by intros [= <-].
  - destruct (fs !! p); [| done]. intros Hh%IH.
    by rewrite read_loop_algo in Hh.
Qed.

Lemma finish_hex_format h :
  length (finish h false) = 2 * digest_size (algo h)
  /\ Forall (λ c, is_hex_lower c = true) (finish h false).
Proof.
  unfold finish, hexdigest, digest.
  rewrite <- (hash_digest_length (algo h) (fed h)).
  apply hex_of_bytes_format.
Qed.

(** X24. The hex output: with [int_only] unset, what both functions
    return has two characters per digest byte (32 for md5, 64 for sha256),
    all of them digits or lower-case 'a'..'f'. *)
Theorem hash_hex_format fs items value extrahash hashtype hex :
  get_string_hash (PStr value) false hashtype = Ok hex
  \/ get_files_hash fs (PList items) extrahash false hashtype = Ok hex ->
  length hex = 2 * digest_size hashtype
  /\ Forall (λ c, is_hex_lower c = true) hex.
Proof.
  unfold get_string_hash, get_files_hash. intros [H | H].
  - destruct (str_encode value); [| done]. injection H as <-.
    apply (finish_hex_format (update (hash_new hashtype) _)).
  - destruct (hash_files fs items (hash_new hashtype)) as [h|] eqn:Hh;
      [| done].
    destruct (str_encode extrahash) as [data|]; [| done]. injection H as <-.
    apply hash_files_algo in Hh. simpl in Hh. rewrite <- Hh.
    apply (finish_hex_format (update h data)).
Qed.

Lemma digit_char_dec d : (d < 10)%N -> is_dec_digit (digit_char d) = true.
Proof.
  intros Hd. unfold is_dec_digit, digit_char.
  destruct (N.ltb_spec d 10); [| lia].
  apply andb_true_iff. split; apply N.leb_le; lia.
Qed.

Lemma digits_from_dec fuel n :
  Forall (λ c, is_dec_digit c = true) (digits_from fuel n).
Proof.
  revert n. induction fuel as [|fuel IH]; intros n; cbn [digits_from];
    [constructor |].
  destruct (N.ltb_spec n 10).
  - repeat constructor. by apply digit_char_dec.
  - apply Forall_app. split; [apply IH |].
    repeat constructor. apply digit_char_dec, N.mod_lt. lia.
Qed.

(** The first digit of a positive number is not '0'. *)
Lemma digits_from_head fuel n :
  (0 < n)%N -> (n < 2 ^ N.of_nat fuel)%N ->
  exists d, head (digits_from fuel n) = Some (digit_char d)
            /\ (0 < d < 10)%N.
Proof.
  revert n. induction fuel as [|fuel IH]; intros n Hpos Hn.
  { simpl in Hn. lia. }
  cbn [digits_from]. destruct (N.ltb_spec n 10) as [Hlt | Hge].
  - exists n. split; [done | lia].
  - destruct (IH (n / 10)%N) as (d & Hd & Hr).
    + apply N.div_str_pos. lia.
    + rewrite Nat2N.inj_succ, N.pow_succ_r' in Hn.
      apply N.Div0.div_lt_upper_bound. lia.
    + exists d. split; [| done].
      destruct (digits_from fuel (n / 10)); [done |]. exact Hd.
Qed.

Lemma int_from_bytes_big_bound (b : list byte) :
  (int_from_bytes_big b < 256 ^ N.of_nat (length b))%N.
Proof.
  unfold int_from_bytes_big.
  assert (H : forall a,
             (foldl (λ acc x, acc * 256 + Byte.to_N x) a b
              < (a + 1) * 256 ^ N.of_nat (length b))%N).
  { induction b as [|x b IH]; intros a.
    - simpl. lia.
    - cbn [foldl length]. rewrite Nat2N.inj_succ, N.pow_succ_r'.
      pose proof (Byte.to_N_bounded x). specialize (IH (a * 256 + Byte.to_N x)%N).
      nia. }
  specialize (H 0%N). lia.
Qed.

(** X25. The decimal output: with [int_only] set, what
    [get_string_hash] returns is a string of decimal digits without a
    leading zero (or "0" itself), and the number it denotes is below
    256 to the digest size. *)
Theorem hash_int_format value hashtype dec :
  get_string_hash (PStr value) true hashtype = Ok dec ->
  Forall (λ c, is_dec_digit c = true) dec
  /\ (dec = [48%N] \/ exists c, head dec = Some c /\ c ≠ 48%N)
  /\ exists n, parse_int 10 dec = Some n
               /\ (n < 256 ^ N.of_nat (digest_size hashtype))%N.
Proof.
  unfold get_string_hash. destruct (str_encode value) as [data|]; [| done].
  intros [= <-]. unfold finish, digest. cbn [algo fed update hash_new app].
  set (n := int_from_bytes_big (hash_digest hashtype data)).
  split; [apply digits_from_dec |]. split.
  - destruct (N.eq_dec n 0%N) as [Hn | Hn]; [left; by rewrite Hn |].
    right. destruct (digits_from_head (S (N.to_nat (N.size n))) n)
      as (d & Hd & Hr); [lia | |].
    { rewrite Nat2N.inj_succ, N2Nat.id, N.pow_succ_r'.
      pose proof (N.size_gt n). lia. }
    exists (digit_char d). split; [done |].
    unfold digit_char. destruct (N.ltb_spec d 10); lia.
  - exists n. split; [apply str_of_int_parse |].
    rewrite <- (hash_digest_length hashtype data).
    apply int_from_bytes_big_bound.
Qed.

(** X26. The errors of [get_string_hash]: [TypeError] exactly when the
    value is not a str; for a str, the encoding error of its first
    surrogate; a str of encodable code points is always hashed. *)
Theorem get_string_hash_errors value int_only hashtype :
  (get_string_hash value int_only hashtype
   = Raise (TypeError [Lit "Expected a str."])
   <-> type_of value ≠ TStr)
  /\ (forall s, value = PStr s ->
        Forall (λ c, valid_scalar c = true) s ->
        exists r, get_string_hash value int_only hashtype = Ok r)
  /\ (forall pre c post, value = PStr (pre ++ c :: post) ->
        Forall (λ c, valid_scalar c = true) pre -> valid_scalar c = false ->
        get_string_hash value int_only hashtype
        = Raise (UnicodeEncodeError c)).
Proof.
  split; [| split].
  - destruct value as [| |s| |]; simpl; try (split; congruence).
    split; [| done]. intros Hr. exfalso.
    destruct (str_encode s) eqn:He; [done |].
    injection Hr as ->. by apply str_encode_raise in He as [c Hc].
  - intros s -> Hv. simpl. destruct (str_encode_ok s Hv) as [data ->].
    by eexists.
  - intros pre c post -> Hpre Hc. simpl.
    by rewrite str_encode_first_invalid.
Qed.

End HashingMore.

Lemma get_files_hash_concat_witness :
  @get_files_hash toy_hashlib toy_fs (PList [py "a"; py "b"]) (py "x")
    false md5
  = @get_files_hash toy_hashlib toy_fs (PList [py "ab"]) (py "x") false md5.
Proof.
  apply (@get_files_hash_concat toy_hashlib toy_fs [py "a"; py "b"]
           [py "ab"] [[x61]; [x62]] [[x61; x62]]).
  - by repeat constructor.
  - by repeat constructor.
  - reflexivity.
Defined.

Lemma get_files_hash_first_missing_witness :
  @get_files_hash toy_hashlib toy_fs
    (PList ([py "a"] ++ py "nope" :: [py "gone"])) [0xD800%N] false md5
  = Raise (FileNotFoundError (py "nope")).
Proof.
  apply (@get_files_hash_first_missing toy_hashlib toy_fs [py "a"]
           [py "gone"] (py "nope")).
  - repeat constructor. by exists [x61].
  - reflexivity.
Defined.

Lemma get_files_hash_empty_files_witness :
  @get_files_hash toy_hashlib toy_fs (PList [py "empty"; py "empty"])
    (py "x") true sha256
  = @get_string_hash toy_hashlib (PStr (py "x")) true sha256.
Proof.
  apply (@get_files_hash_empty_files toy_hashlib toy_fs
           [py "empty"; py "empty"]).
  by repeat constructor.
Defined.

Lemma hash_hex_format_witness :
  length (py "000000000000000000000000000000c3") = 2 * digest_size md5
  /\ Forall (λ c, is_hex_lower c = true)
       (py "000000000000000000000000000000c3").
Proof.
  apply (@hash_hex_format toy_hashlib toy_fs [] (py "ab") [] md5).
  left. reflexivity.
Defined.

Lemma hash_int_format_witness :
  Forall (λ c, is_dec_digit c = true) (py "195")
  /\ (py "195" = [48%N] \/ exists c, head (py "195") = Some c /\ c ≠ 48%N)
  /\ exists n, parse_int 10 (py "195") = Some n
               /\ (n < 256 ^ N.of_nat (digest_size md5))%N.
Proof.
  apply (@hash_int_format toy_hashlib (py "ab") md5). reflexivity.
Defined.

Lemma get_string_hash_errors_witness :
  @get_string_hash toy_hashlib (PTuple []) false md5
  = Raise (TypeError [Lit "Expected a str."])
  /\ (exists r, @get_string_hash toy_hashlib (PStr (py "ab")) false md5 = Ok r)
  /\ @get_string_hash toy_hashlib (PStr (py "a" ++ 0xDFFF%N :: py "b"))
       false md5
     = Raise (UnicodeEncodeError 0xDFFF%N).
Proof.
  split; [| split].
  - apply (proj1 (@get_string_hash_errors toy_hashlib (PTuple []) false md5)).
    discriminate.
  - apply (proj1 (proj2 (@get_string_hash_errors toy_hashlib
                           (PStr (py "ab")) false md5)) (py "ab"));
      [reflexivity | by repeat constructor].
  - apply (proj2 (proj2 (@get_string_hash_errors toy_hashlib
                           (PStr (py "a" ++ 0xDFFF%N :: py "b")) false md5))
             (py "a") 0xDFFF%N (py "b"));
      [reflexivity | by repeat constructor | reflexivity].
Defined.


(** X28. What [readfile] gives: [FileNotFoundError] for a path that is
    not there; and whatever the bytes of the file are, a text that
    [readfile] returns holds no '\r' (line ends are read as '\n'). *)
Theorem readfile_no_cr (fs : gmap (list N) (list byte)) (path : list N) :
  (fs !! path = None -> readfile fs path = Raise (FileNotFoundError path))
  /\ (forall txt, readfile fs path = Ok txt -> 13%N ∉ txt).
Proof.
  unfold readfile. split.
  - by intros ->.
  - intros txt. destruct (fs !! path) as [data|]; [| done].
    destruct (utf8_decode data) as [s|]; [| done].
    intros [= <-]. by apply (read_newlines_no_cr (length s)).
Qed.

Lemma readfile_no_cr_witness :
  let fs : gmap (list N) (list byte) :=
    {[ py "a.txt" := [x61; x0d; x0a; x62; x0d; x63] ]} in
  readfile fs (py "b.txt") = Raise (FileNotFoundError (py "b.txt"))
  /\ readfile fs (py "a.txt") = Ok [97; 10; 98; 10; 99]%N
  /\ (13%N ∉ [97; 10; 98; 10; 99]%N).
Proof.
  intros fs. split; [| split; [reflexivity |]].
  - apply (proj1 (readfile_no_cr fs (py "b.txt"))). reflexivity.
  - apply (proj2 (readfile_no_cr fs (py "a.txt")) [97; 10; 98; 10; 99]%N).
    reflexivity.
Defined.
